(** * download_gopro_media_selenium.py: the paginated-fetch and download core

    A shallow embedding of the functions [_extract_token_from_cookies],
    [fetch_page], [pick_filename], [extract_downloads], [download_one], of
    [main] with its enumeration and dispatch loops, and of the tile loop of
    [download_media_via_ui], followed by the properties the specification
    states about them.

    Conventions of the embedding:
    - a Python exception is a value of [exn]; a call that may raise returns
      [res A], with the exception monad's bind written [x ← c; k];
    - a decoded JSON document is a value of [json]; a Python [dict] keeps its
      insertion order, so it is an association list read with [dict_get];
    - a string is a sequence of code points below 256, one [ascii] each (the
      range of a header value, which the HTTP library decodes as Latin-1);
      [str.strip] and [int] are modelled on this whole range, and text with
      other code points is outside the model, as are non-integer JSON numbers;
    - [print] always succeeds;
    - library calls whose behaviour is not fixed by this repository
      ([urllib.parse.urlparse], [repr] of containers, the clock, the HTTP
      session) are parameters of the sections that use them, and what the
      runtime decides about [time.sleep] is a field of the class [Platform]. *)

From stdpp Require Import gmap strings list fin_maps.
From Stdlib Require Import ZArith DecimalString Ascii Strings.Byte.

Set Warnings "-register-all".

Local Open Scope string_scope.
Local Open Scope Z_scope.
Local Open Scope list_scope.

(** ** Exceptions and results *)

Inductive exn : Type :=
| AttributeError
| TypeError
| ValueError
| OverflowError
| HTTPError (status : Z)       (* requests.HTTPError, from raise_for_status *)
| RequestException             (* any other requests failure: connection, timeout, broken stream *)
| JSONDecodeError
| FileNotFoundError
| FileExistsError
| NotADirectoryError
| IsADirectoryError.

(** [except requests.HTTPError] in [main]. *)
Definition is_HTTPError (e : exn) : bool :=
  match e with HTTPError _ => true | _ => false end.

(** [except Exception] in [main]: every exception of the model derives from
    [Exception] ([KeyboardInterrupt] and [SystemExit] are not modelled). *)
Definition is_Exception (e : exn) : bool := true.

Inductive res (A : Type) : Type :=
| Ok (a : A)
| Raise (e : exn).
Arguments Ok {A} a.
Arguments Raise {A} e.

#[global] Instance res_ret : MRet res := @Ok.
#[global] Instance res_bind : MBind res := λ A B f m,
  match m with Ok a => f a | Raise e => Raise e end.

Definition is_Ok {A} (r : res A) : bool :=
  match r with Ok _ => true | Raise _ => false end.

(** ** JSON values and the Python operations applied to them *)

Inductive json : Type :=
| JNull
| JBool (b : bool)
| JInt (n : Z)
| JStr (s : string)
| JList (xs : list json)
| JDict (kvs : list (string * json)).

(** Truth value of an object, as tested by [if u:], [or] and [not]. *)
Definition truthy (v : json) : bool :=
  match v with
  | JNull => false
  | JBool b => b
  | JInt n => negb (n =? 0)
  | JStr s => negb (String.eqb s "")
  | JList xs => match xs with [] => false | _ => true end
  | JDict kvs => match kvs with [] => false | _ => true end
  end.

(** [a or b]. *)
Definition py_or (a b : json) : json := if truthy a then a else b.

(** [key in d] and [d[key]] on a dict. *)
Fixpoint dict_get (d : list (string * json)) (k : string) : option json :=
  match d with
  | [] => None
  | (k', v) :: d' => if String.eqb k' k then Some v else dict_get d' k
  end.

(** [d.get(key)]: [None] when the key is absent. *)
Definition py_get (d : list (string * json)) (k : string) : json :=
  default JNull (dict_get d k).

(** [d.values()], in insertion order. *)
Definition dict_values (d : list (string * json)) : list json := d.*2.

Definition string_of_Z (n : Z) : string := NilZero.string_of_int (Z.to_int n).

(** ** Strings *)

(** [str.isspace] on one character, which is what [str.strip] removes:
    TAB..CR, FS..US, the space, NEL (133) and the no-break space (160). *)
Definition is_space (c : ascii) : bool :=
  let n := nat_of_ascii c in
  (((9 <=? n) && (n <=? 13)) || ((28 <=? n) && (n <=? 32))
   || (n =? 133) || (n =? 160))%nat.

Fixpoint lstrip (cs : list ascii) : list ascii :=
  match cs with
  | c :: cs' => if is_space c then lstrip cs' else cs
  | [] => []
  end.

(** [s.strip()]. *)
Definition strip (cs : list ascii) : list ascii :=
  rev (lstrip (rev (lstrip cs))).

(** [s.split(sep)] for a one-character separator: never the empty list. *)
Fixpoint split_on (sep : ascii) (s : string) : list string :=
  match s with
  | EmptyString => [EmptyString]
  | String c s' =>
      if Ascii.eqb c sep then EmptyString :: split_on sep s'
      else match split_on sep s' with
           | [] => [String c EmptyString]
           | w :: ws => String c w :: ws
           end
  end.

(** [sep in s]. *)
Fixpoint has_char (sep : ascii) (s : string) : bool :=
  match s with
  | EmptyString => false
  | String c s' => Ascii.eqb c sep || has_char sep s'
  end.

(** [s.split(sep, 1)] when [sep in s]: the text before and after the first
    separator; [None] when there is none. *)
Fixpoint split_first (sep : ascii) (s : string) : option (string * string) :=
  match s with
  | EmptyString => None
  | String c s' =>
      if Ascii.eqb c sep then Some (EmptyString, s')
      else match split_first sep s' with
           | Some (a, b) => Some (String c a, b)
           | None => None
           end
  end.

Definition digit_val (c : ascii) : option Z :=
  let n := nat_of_ascii c in
  if ((48 <=? n) && (n <=? 57))%nat then Some (Z.of_nat (n - 48)) else None.

(** The digits of an [int] literal: decimal digits, single underscores
    allowed between two digits. *)
Fixpoint int_digits (after_digit : bool) (acc : Z) (cs : list ascii) : option Z :=
  match cs with
  | [] => if after_digit then Some acc else None
  | c :: cs' =>
      if Ascii.eqb c "_"
      then (if after_digit then int_digits false acc cs' else None)
      else match digit_val c with
           | Some d => int_digits true (10 * acc + d) cs'
           | None => None
           end
  end.

(** The blanks [int] skips around a literal: TAB..CR and the space, and the
    two blanks above 127; FS..US are not among them. *)
Definition is_int_space (c : ascii) : bool :=
  let n := nat_of_ascii c in
  (((9 <=? n) && (n <=? 13)) || (n =? 32) || (n =? 133) || (n =? 160))%nat.

Fixpoint int_lstrip (cs : list ascii) : list ascii :=
  match cs with
  | c :: cs' => if is_int_space c then int_lstrip cs' else cs
  | [] => []
  end.

Definition int_strip (cs : list ascii) : list ascii :=
  rev (int_lstrip (rev (int_lstrip cs))).

(** [sys.get_int_max_str_digits()], at its default. *)
Definition int_max_str_digits : nat := 4300.

(** [int(s)] for a string: surrounding blanks, an optional sign, then the
    digits, at most [int_max_str_digits] of them; anything else raises
    [ValueError]. *)
Definition py_int (s : string) : res Z :=
  let cs := int_strip (String.list_ascii_of_string s) in
  let '(neg, ds) :=
    match cs with
    | "-"%char :: r => (true, r)
    | "+"%char :: r => (false, r)
    | _ => (false, cs)
    end in
  if (int_max_str_digits
      <? length (List.filter (λ c, bool_decide (is_Some (digit_val c))) ds))%nat
  then Raise ValueError
  else match int_digits false 0 ds with
       | Some n => Ok (if neg then - n else n)
       | None => Raise ValueError
       end.

(** ** pathlib *)

(** The parts of a POSIX path string: [PurePosixPath] splits on "/" and
    drops empty components and "." components. *)
Definition path_parts (s : string) : list string :=
  filter (λ c, c ≠ "" ∧ c ≠ ".") (split_on "/" s).

(** [Path(s).name]: the final component, or the empty string when the path
    has none. *)
Definition path_name (s : string) : string := List.last (path_parts s) "".

Record Path : Type := mkPath { absolute : bool; parts : list string }.

(** [Path(s)]. *)
Definition Path_of (s : string) : Path :=
  {| absolute := match s with String "/" _ => true | _ => false end;
     parts := path_parts s |}.

(** [p / s]: an absolute right operand replaces the left one. *)
Definition Path_div (p : Path) (s : string) : Path :=
  let q := Path_of s in
  if absolute q then q
  else {| absolute := absolute p; parts := parts p ++ parts q |}.

(** [p.parent]: the parent of an anchor or of the empty path is itself. *)
Definition Path_parent (p : Path) : Path :=
  {| absolute := absolute p; parts := removelast (parts p) |}.

(** ** URL extractor: [pick_filename] and [extract_downloads] *)

Section Extractor.

(** [urlparse(url).path] for a [str] argument. The standard library raises
    [ValueError] on some strings (an unbalanced bracket in the host). *)
Variable urlparse_path : string → res string.

(** [str(v)] for a list or a dict. *)
Variable py_repr : json → string.

(** [int(time.time())] as read while the candidate list holds [n] entries. *)
Variable clock : nat → Z.

(** [f"{v}"]. *)
Definition py_str (v : json) : string :=
  match v with
  | JNull => "None"
  | JBool true => "True"
  | JBool false => "False"
  | JInt n => string_of_Z n
  | JStr s => s
  | JList _ | JDict _ => py_repr v
  end.

Definition pick_filename (t : Z) (url : string) (media : list (string * json))
  : res string :=
  path ← urlparse_path url;
  let name := path_name path in
  if negb (String.eqb name "") then Ok name
  else Ok (py_str (default (JInt t) (dict_get media "id"))).

(** The closure [add_candidate] of [extract_downloads]; [downloads] is the
    list it appends to. A truthy value that is not a [str] reaches
    [urlparse], whose argument coercion fails with [AttributeError]. *)
Definition add_candidate (media : list (string * json)) (u : json)
  (downloads : list (string * string)) : res (list (string * string)) :=
  if truthy u then
    match u with
    | JStr s =>
        fname ← pick_filename (clock (length downloads)) s media;
        Ok (downloads ++ [(s, fname)])
    | _ => Raise AttributeError
    end
  else Ok downloads.

(** A [for] loop whose body updates a state and may raise. *)
Fixpoint for_each {A S : Type} (body : A → S → res S) (xs : list A) (s : S)
  : res S :=
  match xs with
  | [] => Ok s
  | x :: xs' => s' ← body x s; for_each body xs' s'
  end.

Definition top_level_keys : list string := ["download_url"; "downloadUrl"; "url"].

(** [e.get("url") or e.get("download_url") or e.get("downloadUrl")]. *)
Definition entry_url (e : list (string * json)) : json :=
  py_or (py_get e "url") (py_or (py_get e "download_url") (py_get e "downloadUrl")).

(** First loop: the direct fields of the record. *)
Definition add_top_level (media : list (string * json))
  (downloads : list (string * string)) : res (list (string * string)) :=
  for_each (λ key, add_candidate media (py_get media key)) top_level_keys downloads.

(** [media.get("files") or media.get("media_files") or []]. *)
Definition files_field (media : list (string * json)) : json :=
  py_or (py_get media "files") (py_or (py_get media "media_files") (JList [])).

(** Body of the second loop: [file_entry.get] exists on a dict only. *)
Definition add_file_entry (media : list (string * json)) (file_entry : json)
  (downloads : list (string * string)) : res (list (string * string)) :=
  match file_entry with
  | JDict e => add_candidate media (entry_url e) downloads
  | _ => Raise AttributeError
  end.

(** Second loop. [for file_entry in files] iterates a list by element, a
    dict by key and a string by character; other values are not iterable. *)
Definition add_files (media : list (string * json))
  (downloads : list (string * string)) : res (list (string * string)) :=
  match files_field media with
  | JList xs => for_each (add_file_entry media) xs downloads
  | JDict kvs => for_each (add_file_entry media) (JStr <$> kvs.*1) downloads
  | JStr s =>
      for_each (add_file_entry media)
        ((λ c, JStr (String c "")) <$> String.list_ascii_of_string s) downloads
  | JNull | JBool _ | JInt _ => Raise TypeError
  end.

(** [media.get("versions") or media.get("derived_media") or {}]. *)
Definition versions_field (media : list (string * json)) : json :=
  py_or (py_get media "versions") (py_or (py_get media "derived_media") (JDict [])).

Definition add_variant_entry (media : list (string * json)) (entry : json)
  (downloads : list (string * string)) : res (list (string * string)) :=
  match entry with
  | JDict e => add_candidate media (entry_url e) downloads
  | _ => Ok downloads
  end.

Definition add_variant (media : list (string * json)) (variant : json)
  (downloads : list (string * string)) : res (list (string * string)) :=
  match variant with
  | JDict e => add_candidate media (entry_url e) downloads
  | JList entries => for_each (add_variant_entry media) entries downloads
  | _ => Ok downloads
  end.

(** Third loop, guarded by [isinstance] at every level. *)
Definition add_versions (media : list (string * json))
  (downloads : list (string * string)) : res (list (string * string)) :=
  match versions_field media with
  | JDict kvs => for_each (add_variant media) (dict_values kvs) downloads
  | _ => Ok downloads
  end.

(** The three loops in sequence: the list [downloads] before deduplication. *)
Definition collect_downloads (media : list (string * json))
  : res (list (string * string)) :=
  d1 ← add_top_level media [];
  d2 ← add_files media d1;
  add_versions media d2.

(** One step of the last loop over the state ([seen], [unique]). *)
Definition unique_step (st : gset string * list (string * string))
  (c : string * string) : gset string * list (string * string) :=
  if decide (c.1 ∈ st.1) then st else ({[c.1]} ∪ st.1, st.2 ++ [c]).

Definition unique_of (downloads : list (string * string)) : list (string * string) :=
  (fold_left unique_step downloads (∅, [])).2.

Definition extract_downloads (media : list (string * json))
  : res (list (string * string)) :=
  downloads ← collect_downloads media;
  Ok (unique_of downloads).

(** *** The candidates of a record, tier by tier

    What each tier offers to [add_candidate], read off the record alone. *)

Definition top_level_candidates (media : list (string * json)) : list json :=
  filter (λ u, truthy u = true) (py_get media <$> top_level_keys).

Definition dict_entry_url (e : json) : option json :=
  match e with JDict d => Some (entry_url d) | _ => None end.

Definition file_list_candidates (media : list (string * json)) : list json :=
  match files_field media with
  | JList xs => filter (λ u, truthy u = true) (omap dict_entry_url xs)
  | _ => []
  end.

Definition variant_urls (variant : json) : list json :=
  match variant with
  | JDict e => [entry_url e]
  | JList entries => omap dict_entry_url entries
  | _ => []
  end.

Definition variant_candidates (media : list (string * json)) : list json :=
  match versions_field media with
  | JDict kvs =>
      filter (λ u, truthy u = true) (concat (variant_urls <$> dict_values kvs))
  | _ => []
  end.

Definition candidates (media : list (string * json)) : list json :=
  top_level_candidates media ++ file_list_candidates media
    ++ variant_candidates media.

(** The file list has the shape the second loop expects: a list of objects. *)
Definition files_ok (media : list (string * json)) : Prop :=
  ∃ xs, files_field media = JList xs ∧ ∀ x, x ∈ xs → ∃ e, x = JDict e.

(** A value [add_candidate] accepts: falsy, or a string [urlparse] takes. *)
Definition parseable (u : json) : Prop :=
  truthy u = true → ∃ s, u = JStr s ∧ is_Ok (urlparse_path s) = true.

(** What one call of [add_candidate] keeps of its argument. *)
Definition kept (u : json) : list json := filter (λ v, truthy v = true) [u].

(** What one entry of a file list or of a variant list offers. *)
Definition entry_kept (x : json) : list json :=
  filter (λ v, truthy v = true) (option_list (dict_entry_url x)).

(** The last loop read as a recursion over the rest of [downloads]. *)
Fixpoint uniq_from (seen : gset string) (l : list (string * string))
  : list (string * string) :=
  match l with
  | [] => []
  | c :: l' =>
      if decide (c.1 ∈ seen) then uniq_from seen l'
      else c :: uniq_from ({[c.1]} ∪ seen) l'
  end.

End Extractor.

(** ** An instance of [urlparse(url).path]

    [urllib.parse.urlsplit] followed by the parameter split of [urlparse],
    as in CPython 3.12, for [str] arguments. Left out: the validation of a
    bracketed host and the NFKC check of a non-ASCII host, which only add
    [ValueError]s. The theorems below hold for every [urlparse_path]; this
    instance evaluates them on concrete URLs. *)

Definition is_alpha (c : ascii) : bool :=
  let n := nat_of_ascii c in
  (((65 <=? n) && (n <=? 90)) || ((97 <=? n) && (n <=? 122)))%nat.

Definition is_scheme_char (c : ascii) : bool :=
  is_alpha c || bool_decide (is_Some (digit_val c))
  || Ascii.eqb c "+" || Ascii.eqb c "-" || Ascii.eqb c ".".

Definition lower_char (c : ascii) : ascii :=
  let n := nat_of_ascii c in
  if ((65 <=? n) && (n <=? 90))%nat then ascii_of_nat (n + 32) else c.

Fixpoint string_forallb (p : ascii → bool) (s : string) : bool :=
  match s with
  | EmptyString => true
  | String c s' => p c && string_forallb p s'
  end.

Fixpoint string_map (f : ascii → ascii) (s : string) : string :=
  match s with
  | EmptyString => EmptyString
  | String c s' => String (f c) (string_map f s')
  end.

Fixpoint string_filter (p : ascii → bool) (s : string) : string :=
  match s with
  | EmptyString => EmptyString
  | String c s' => if p c then String c (string_filter p s') else string_filter p s'
  end.

(** [url.lstrip(_WHATWG_C0_CONTROL_OR_SPACE)]. *)
Fixpoint lstrip_c0 (s : string) : string :=
  match s with
  | String c s' => if (nat_of_ascii c <=? 32)%nat then lstrip_c0 s' else s
  | EmptyString => EmptyString
  end.

(** The text before the first character satisfying [stop], and the rest. *)
Fixpoint span_until (stop : ascii → bool) (s : string) : string * string :=
  match s with
  | EmptyString => (EmptyString, EmptyString)
  | String c s' =>
      if stop c then (EmptyString, s)
      else let '(a, b) := span_until stop s' in (String c a, b)
  end.

Definition before_first (sep : ascii) (s : string) : string :=
  (span_until (Ascii.eqb sep) s).1.

Definition split_scheme (url : string) : string * string :=
  match split_first ":" url with
  | Some (String c pre, rest) =>
      if is_alpha c && string_forallb is_scheme_char (String c pre)
      then (string_map lower_char (String c pre), rest)
      else ("", url)
  | _ => ("", url)
  end.

Definition uses_params : list string :=
  [""; "ftp"; "hdl"; "prospero"; "http"; "imap"; "https"; "shttp"; "rtsp";
   "rtspu"; "sip"; "sips"; "mms"; "sftp"; "tel"].

Fixpoint join_with (sep : ascii) (ws : list string) : string :=
  match ws with
  | [] => ""
  | [w] => w
  | w :: ws' => w +:+ String sep (join_with sep ws')
  end.

(** [_splitparams(url)[0]]: the last segment loses what follows its first ";". *)
Definition strip_params (url : string) : string :=
  let segs := split_on "/" url in
  join_with "/" (removelast segs ++ [before_first ";" (List.last segs "")]).

Definition urlparse_path_cpython (url0 : string) : res string :=
  let url1 := lstrip_c0 url0 in
  let url2 :=
    string_filter
      (λ c, negb (Ascii.eqb c "009" || Ascii.eqb c "010" || Ascii.eqb c "013")) url1 in
  let '(scheme, url3) := split_scheme url2 in
  netloc_rest ←
    match url3 with
    | String "/" (String "/" r) =>
        let '(netloc, rest) :=
          span_until (λ c, Ascii.eqb c "/" || Ascii.eqb c "?" || Ascii.eqb c "#") r in
        if xorb (has_char "[" netloc) (has_char "]" netloc)
        then Raise ValueError else Ok rest
    | _ => Ok url3
    end;
  let url4 := before_first "?" (before_first "#" netloc_rest) in
  Ok (if bool_decide (scheme ∈ uses_params) && has_char ";" url4
      then strip_params url4 else url4).

(** A stand-in for [repr] where no record carries a list or dict as its id. *)
Definition repr_opaque (v : json) : string := "<object>".

(** ** File system

    A location is an anchor (the root for an absolute path, the working
    directory for a relative one) and the names below it; both anchors are
    directories. There are no symbolic links, ".." at an anchor stays there,
    and the absolute spelling of a relative path is a different location.
    Names are compared byte for byte, every directory can be searched and
    written (no permissions, quotas or device errors), and every path is
    taken as it is: the names and lengths an operating system refuses are
    described by [os_accepts] below, for the statements that need it. *)

Inductive node : Type :=
| File (content : list byte)
| Dir.

Definition node_at (fs : gmap (bool * list string) node) (a : bool)
  (cur : list string) : option node :=
  match cur with
  | [] => Some Dir
  | _ => fs !! (a, cur)
  end.

(** Path resolution from the directory [cur]: every component is looked up
    in a directory, ".." steps to the parent. *)
Fixpoint walk (fs : gmap (bool * list string) node) (a : bool)
  (cur : list string) (cs : list string) : res (list string) :=
  match cs with
  | [] => Ok cur
  | c :: rest =>
      match node_at fs a cur with
      | None => Raise FileNotFoundError
      | Some (File _) => Raise NotADirectoryError
      | Some Dir =>
          walk fs a (if String.eqb c ".." then removelast cur else cur ++ [c]) rest
      end
  end.

Definition resolve (fs : gmap (bool * list string) node) (p : Path)
  : res (list string) :=
  walk fs (absolute p) [] (parts p).

(** [os.stat(p)]. *)
Definition stat (fs : gmap (bool * list string) node) (p : Path) : res node :=
  q ← resolve fs p;
  match node_at fs (absolute p) q with
  | Some n => Ok n
  | None => Raise FileNotFoundError
  end.

(** [p.exists()] and [p.is_dir()]: a failing [stat] answers [False]. *)
Definition Path_exists (fs : gmap (bool * list string) node) (p : Path) : bool :=
  is_Ok (stat fs p).

Definition Path_is_dir (fs : gmap (bool * list string) node) (p : Path) : bool :=
  match stat fs p with Ok Dir => true | _ => false end.

(** [os.mkdir(p)]: the parent must resolve to a directory and the name must
    be free. *)
Definition os_mkdir (fs : gmap (bool * list string) node) (p : Path)
  : res (gmap (bool * list string) node) :=
  match last (parts p) with
  | None => Raise FileExistsError
  | Some c =>
      dir ← resolve fs (Path_parent p);
      match node_at fs (absolute p) dir with
      | None => Raise FileNotFoundError
      | Some (File _) => Raise NotADirectoryError
      | Some Dir =>
          if String.eqb c ".." then Raise FileExistsError
          else match node_at fs (absolute p) (dir ++ [c]) with
               | Some _ => Raise FileExistsError
               | None => Ok (<[(absolute p, dir ++ [c]) := Dir]> fs)
               end
      end
  end.

(** [p.mkdir(parents=False, exist_ok=True)]. *)
Definition mkdir_exist_ok (fs : gmap (bool * list string) node) (p : Path)
  : res (gmap (bool * list string) node) :=
  match os_mkdir fs p with
  | Ok fs' => Ok fs'
  | Raise FileNotFoundError => Raise FileNotFoundError
  | Raise e => if Path_is_dir fs p then Ok fs else Raise e
  end.

(** [p.mkdir(parents=True, exist_ok=True)], as pathlib writes it: try
    [os.mkdir]; on [FileNotFoundError] make the parent the same way and try
    once more; on another [OSError] accept an existing directory. [n] bounds
    the parts left, so [n = 0] is the test [self.parent == self]. *)
Fixpoint mkdir_parents_from (n : nat) (fs : gmap (bool * list string) node)
  (p : Path) : res (gmap (bool * list string) node) :=
  match os_mkdir fs p with
  | Ok fs' => Ok fs'
  | Raise FileNotFoundError =>
      match n with
      | O => Raise FileNotFoundError
      | S n' =>
          fs1 ← mkdir_parents_from n' fs (Path_parent p);
          mkdir_exist_ok fs1 p
      end
  | Raise e => if Path_is_dir fs p then Ok fs else Raise e
  end.

Definition Path_mkdir (fs : gmap (bool * list string) node) (p : Path)
  : res (gmap (bool * list string) node) :=
  mkdir_parents_from (length (parts p)) fs p.

(** [open(p, "wb")]: creates or truncates the file; the handle is its
    location. *)
Definition open_wb (fs : gmap (bool * list string) node) (p : Path)
  : res (gmap (bool * list string) node * list string) :=
  match last (parts p) with
  | None => Raise IsADirectoryError
  | Some c =>
      dir ← resolve fs (Path_parent p);
      match node_at fs (absolute p) dir with
      | None => Raise FileNotFoundError
      | Some (File _) => Raise NotADirectoryError
      | Some Dir =>
          if String.eqb c ".." then Raise IsADirectoryError
          else match node_at fs (absolute p) (dir ++ [c]) with
               | Some Dir => Raise IsADirectoryError
               | _ => Ok (<[(absolute p, dir ++ [c]) := File []]> fs, dir ++ [c])
               end
      end
  end.

(** [f.write(chunk)] on the handle [(a, q)]. *)
Definition file_write (fs : gmap (bool * list string) node) (a : bool)
  (q : list string) (chunk : list byte) : gmap (bool * list string) node :=
  match fs !! (a, q) with
  | Some (File content) => <[(a, q) := File (content ++ chunk)]> fs
  | _ => fs
  end.

(** *** The paths Linux accepts

    [os.stat], [os.mkdir] and [open] raise [ValueError] on a path with a NUL
    character, and [OSError] (ENAMETOOLONG) when a name they look up is longer
    than [NAME_MAX] bytes or the path string takes [PATH_MAX] bytes or more
    with its final NUL; [Path.exists] lets this [OSError] through. The model
    above has none of these failures: [os_accepts] is the condition under
    which the system has none either. *)

Definition NAME_MAX : nat := 255.
Definition PATH_MAX : nat := 4096.

(** Bytes of a string in the file system encoding, UTF-8: one for a code
    point below 128, two for the others. *)
Definition utf8_length (s : string) : nat :=
  sum_list ((λ c, if (nat_of_ascii c <? 128)%nat then 1%nat else 2%nat)
              <$> String.list_ascii_of_string s).

(** A part as pathlib makes them and the system takes them: not empty, not
    ".", without "/" and NUL, of at most [NAME_MAX] bytes. *)
Definition is_file_name (c : string) : bool :=
  negb (String.eqb c "") && negb (String.eqb c ".")
  && negb (has_char "/" c) && negb (has_char "000" c)
  && (utf8_length c <=? NAME_MAX)%nat.

(** Bytes of the path string, at most: the parts, the separators between
    them, and two bytes for the root, which pathlib keeps as "//" when the
    path was written with exactly two leading slashes. *)
Definition path_bytes (p : Path) : nat :=
  (if absolute p then 2 else 0) + sum_list (utf8_length <$> parts p)
  + (length (parts p) - 1).

Definition os_accepts (p : Path) : bool :=
  forallb is_file_name (parts p) && (path_bytes p <? PATH_MAX)%nat.

(** ** HTTP *)

Record request : Type := mkRequest {
  rq_url : string;
  rq_params : list (string * string);
  rq_headers : list (string * string);
  rq_stream : bool;
  rq_timeout : Z
}.

(** What the code reads of a response: the status, the [Retry-After]
    header, the body decoded by [resp.json()] ([None] when it is not JSON),
    and for a streamed body the chunks [iter_content] yields and whether the
    stream breaks after them. *)
Record response : Type := mkResponse {
  status_code : Z;
  retry_after : option string;
  json_body : option json;
  chunks : list (list byte);
  stream_breaks : bool
}.

(** [resp.raise_for_status()]. *)
Definition raise_for_status (r : response) : res unit :=
  if (400 <=? status_code r) && (status_code r <? 600)
  then Raise (HTTPError (status_code r)) else Ok ().

Definition API_URL : string := "https://api.gopro.com/media/search".

Definition string_strip (s : string) : string :=
  String.string_of_list_ascii (strip (String.list_ascii_of_string s)).

(** The loop of [_extract_token_from_cookies] over the parts of the header. *)
Fixpoint token_of_parts (cookie_parts : list string) : option string :=
  match cookie_parts with
  | [] => None
  | part :: rest =>
      match split_first "=" (string_strip part) with
      | Some (name, value) =>
          if String.eqb name "gp_access_token" then Some value
          else token_of_parts rest
      | None => token_of_parts rest
      end
  end.

Definition _extract_token_from_cookies (cookie_header : string) : option string :=
  token_of_parts (split_on ";" cookie_header).

(** [if token: headers["Authorization"] = f"Bearer {token}"]. *)
Definition with_bearer (cookie_header : string)
  (headers : list (string * string)) : list (string * string) :=
  match _extract_token_from_cookies cookie_header with
  | Some token =>
      if String.eqb token "" then headers
      else headers ++ [("Authorization", "Bearer " +:+ token)]
  | None => headers
  end.

(** What the program prints, one constructor per message. *)
Inductive event : Type :=
| Skipping (dest : Path)
| Downloaded (dest : Path)
| Failed (dest : Path) (url : string) (e : exn)
| RateLimited (wait_for : Z)
| ReachedMaxPages
| FetchFailed (e : exn)
| Fetched (page : Z) (items : nat)
| NoDownloadURL (id : json)
| Done.

(** ** The platform

    [time.sleep(t)] on an [int]: whether the call returns after the pause or
    raises is decided by the Python runtime and the operating system (a
    negative length, a length beyond the range of the C clock, a deadline the
    kernel refuses), not by this repository. The theorems hold for every
    platform; the examples run on [cpython]. *)

Class Platform : Type := { time_sleep : Z → res unit }.

(** ** The program over a world

    The world holds the file system, the state of the remote server, the
    requests sent so far, the pauses taken by [time.sleep] and the messages
    printed. *)

Section Program.

Variable Net : Type.
Context `{platform : Platform}.

(** [session.get(url, params=, headers=, stream=, timeout=)]: the reply or
    the exception raised by the transport, and the server's next state. *)
Variable session_get : request → Net → res response * Net.

Variable urlparse_path : string → res string.
Variable py_repr : json → string.

(** [int(time.time())] as read while extracting record number [k] of the
    run, with [n] candidates collected for it. *)
Variable clock : nat → nat → Z.

Record world : Type := mkWorld {
  w_fs : gmap (bool * list string) node;
  w_net : Net;
  w_requests : list request;
  w_slept : list Z;
  w_out : list event
}.

Definition set_fs (fs : gmap (bool * list string) node) (w : world) : world :=
  {| w_fs := fs; w_net := w_net w; w_requests := w_requests w;
     w_slept := w_slept w; w_out := w_out w |}.

(** [print(...)]. *)
Definition emit (ev : event) (w : world) : world :=
  {| w_fs := w_fs w; w_net := w_net w; w_requests := w_requests w;
     w_slept := w_slept w; w_out := w_out w ++ [ev] |}.

(** The pause of a [time.sleep(t)] that returns. *)
Definition sleep (t : Z) (w : world) : world :=
  {| w_fs := w_fs w; w_net := w_net w; w_requests := w_requests w;
     w_slept := w_slept w ++ [t]; w_out := w_out w |}.

Definition http_get (rq : request) (w : world) : res response * world :=
  let '(r, net') := session_get rq (w_net w) in
  (r, {| w_fs := w_fs w; w_net := net'; w_requests := w_requests w ++ [rq];
         w_slept := w_slept w; w_out := w_out w |}).

(** *** [download_one] *)

(** [for chunk in resp.iter_content(...): if chunk: f.write(chunk)]. *)
Definition write_chunks (fs : gmap (bool * list string) node) (a : bool)
  (q : list string) (cs : list (list byte)) : gmap (bool * list string) node :=
  fold_left
    (λ fs' chunk, match chunk with [] => fs' | _ => file_write fs' a q chunk end)
    cs fs.

Definition download_one (url : string) (dest : Path) (cookie_header : string)
  (w : world) : res unit * world :=
  match Path_mkdir (w_fs w) (Path_parent dest) with
  | Raise e => (Raise e, w)
  | Ok fs1 =>
      let w1 := set_fs fs1 w in
      if Path_exists fs1 dest then (Ok (), emit (Skipping dest) w1)
      else
        let headers := with_bearer cookie_header [("Cookie", cookie_header)] in
        match http_get (mkRequest url [] headers true 120) w1 with
        | (Raise e, w2) => (Raise e, w2)
        | (Ok resp, w2) =>
            match raise_for_status resp with
            | Raise e => (Raise e, w2)
            | Ok _ =>
                match open_wb (w_fs w2) dest with
                | Raise e => (Raise e, w2)
                | Ok (fs2, q) =>
                    let fs3 := write_chunks fs2 (absolute dest) q (chunks resp) in
                    if stream_breaks resp
                    then (Raise RequestException, set_fs fs3 w2)
                    else (Ok (), emit (Downloaded dest) (set_fs fs3 w2))
                end
            end
        end
  end.

(** *** The dispatch loop of [main]

    The pool is modelled with one job running at a time, in submission
    order, each to completion; the interleaving of several workers' file
    and network steps is outside the model. *)

(** [fut.result()] under [try ... except Exception], for each job. *)
Fixpoint run_jobs (cookie_header : string) (jobs : list (string * Path))
  (w : world) : res unit * world :=
  match jobs with
  | [] => (Ok (), w)
  | (url, dest) :: rest =>
      match download_one url dest cookie_header w with
      | (Ok _, w1) => run_jobs cookie_header rest w1
      | (Raise e, w1) =>
          if is_Exception e
          then run_jobs cookie_header rest (emit (Failed dest url e) w1)
          else (Raise e, w1)
      end
  end.

(** [ThreadPoolExecutor(max_workers=concurrency)] refuses a pool without
    workers; then the jobs run and "Done." is printed. *)
Definition dispatch (concurrency : Z) (cookie_header : string)
  (jobs : list (string * Path)) (w : world) : res unit * world :=
  if concurrency <=? 0 then (Raise ValueError, w)
  else match run_jobs cookie_header jobs w with
       | (Ok _, w') => (Ok (), emit Done w')
       | (Raise e, w') => (Raise e, w')
       end.

(** What each job's call of [download_one] returned, in job order. *)
Fixpoint job_results (cookie_header : string) (jobs : list (string * Path))
  (w : world) : list (res unit) :=
  match jobs with
  | [] => []
  | (url, dest) :: rest =>
      let '(r, w1) := download_one url dest cookie_header w in
      r :: job_results cookie_header rest
             (match r with
              | Ok _ => w1
              | Raise e => emit (Failed dest url e) w1
              end)
  end.

(** *** [fetch_page] *)

Definition list_keys : list string := ["media"; "data"; "results"; "items"].

(** [for key in (...): if key in d and isinstance(d[key], list): return d[key]]. *)
Fixpoint first_list (d : list (string * json)) (keys : list string)
  : option (list json) :=
  match keys with
  | [] => None
  | key :: rest =>
      match dict_get d key with
      | Some (JList xs) => Some xs
      | _ => first_list d rest
      end
  end.

Definition is_str (k : string) (v : json) : bool :=
  match v with JStr s => String.eqb s k | _ => false end.

(** The tail of [fetch_page], from [data = resp.json() or {}] on. On a body
    that is not an object, [key in data] is list membership or a substring
    test, and [data[key]] then fails; on a number it fails at once. *)
Definition unwrap_records (data : json) : res (list json) :=
  match data with
  | JDict d =>
      match first_list d list_keys with
      | Some xs => Ok xs
      | None =>
          match dict_get d "response" with
          | Some (JDict inner) => Ok (default [] (first_list inner list_keys))
          | _ => Ok []
          end
      end
  | JList xs =>
      if existsb (λ k, existsb (is_str k) xs) (list_keys ++ ["response"])
      then Raise TypeError else Ok []
  | JStr s =>
      if existsb (λ k, bool_decide (is_Some (String.index 0 k s)))
           (list_keys ++ ["response"])
      then Raise TypeError else Ok []
  | JNull | JBool _ | JInt _ => Raise TypeError
  end.

Definition listing_request (cookie_header : string) (page per_page : Z)
  : request :=
  mkRequest API_URL
    [("page", string_of_Z page); ("per_page", string_of_Z per_page);
     ("order_by", "captured_at")]
    (with_bearer cookie_header
       [("Accept", "application/json");
        ("Accept-Language", "en-US,en;q=0.9");
        ("User-Agent",
         "Mozilla/5.0 (Macintosh; Intel Mac OS X 10_15_7) AppleWebKit/537.36 (KHTML, like Gecko) Chrome/120.0.0.0 Safari/537.36");
        ("Referer", "https://gopro.com/");
        ("Cookie", cookie_header)])
    false 30.

(** The [if resp.status_code == 429] block: parse the header, print, sleep,
    ask again. *)
Definition retry_if_rate_limited (rq : request) (resp : response) (w : world)
  : res response * world :=
  if status_code resp =? 429 then
    match py_int (default "5" (retry_after resp)) with
    | Raise e => (Raise e, w)
    | Ok wait_for =>
        let w1 := emit (RateLimited wait_for) w in
        match time_sleep wait_for with
        | Raise e => (Raise e, w1)
        | Ok _ => http_get rq (sleep wait_for w1)
        end
    end
  else (Ok resp, w).

Definition fetch_page (cookie_header : string) (page per_page : Z) (w : world)
  : res (list json) * world :=
  let rq := listing_request cookie_header page per_page in
  match http_get rq w with
  | (Raise e, w1) => (Raise e, w1)
  | (Ok resp0, w1) =>
      match retry_if_rate_limited rq resp0 w1 with
      | (Raise e, w2) => (Raise e, w2)
      | (Ok resp, w2) =>
          match raise_for_status resp with
          | Raise e => (Raise e, w2)
          | Ok _ =>
              match json_body resp with
              | None => (Raise JSONDecodeError, w2)
              | Some body => (unwrap_records (py_or body (JDict [])), w2)
              end
          end
      end
  end.

(** *** The enumeration loop of [main] *)

(** How the [while True] loop ends. *)
Inductive enumeration : Type :=
| Enumerated (download_jobs : list (string * Path))   (* left by [break] *)
| Returned                                            (* [return] after a failed fetch *)
| Crashed (e : exn).                                  (* an exception left [main] *)

(** [extract_downloads(media)] on an element of the page: [media.get]
    exists on a dict only. *)
Definition extract_downloads_of (k : nat) (media : json)
  : res (list (string * string)) :=
  match media with
  | JDict d => extract_downloads urlparse_path py_repr (clock k) d
  | _ => Raise AttributeError
  end.

(** Body of [for media in media_page], for record number [k] of the run. *)
Definition enqueue (out_dir : Path) (k : nat) (media : json)
  (download_jobs : list (string * Path)) (w : world)
  : res (list (string * Path)) * world :=
  match extract_downloads_of k media with
  | Raise e => (Raise e, w)
  | Ok [] =>
      (Ok download_jobs,
       emit (NoDownloadURL
               (match media with JDict d => py_get d "id" | _ => JNull end)) w)
  | Ok ((url, fname) :: _) =>
      (Ok (download_jobs ++ [(url, Path_div out_dir fname)]), w)
  end.

Fixpoint enqueue_page (out_dir : Path) (k : nat) (media_page : list json)
  (download_jobs : list (string * Path)) (w : world)
  : res (list (string * Path)) * world :=
  match media_page with
  | [] => (Ok download_jobs, w)
  | media :: rest =>
      match enqueue out_dir k media download_jobs w with
      | (Raise e, w') => (Raise e, w')
      | (Ok jobs', w') => enqueue_page out_dir (S k) rest jobs' w'
      end
  end.

(** [args.max_pages and page > args.max_pages]. *)
Definition cap_reached (max_pages : option Z) (page : Z) : bool :=
  match max_pages with
  | None => false
  | Some m => negb (m =? 0) && (m <? page)
  end.

(** The loop, from the state ([page], [download_jobs]) with [k] records
    seen; [fuel] bounds the number of iterations, [None] is "still looping". *)
Fixpoint enumerate (fuel : nat) (max_pages : option Z) (per_page : Z)
  (cookie_header : string) (out_dir : Path) (page : Z) (k : nat)
  (download_jobs : list (string * Path)) (w : world)
  : option (enumeration * world) :=
  match fuel with
  | O => None
  | S fuel' =>
      if cap_reached max_pages page
      then Some (Enumerated download_jobs, emit ReachedMaxPages w)
      else
        match fetch_page cookie_header page per_page w with
        | (Raise e, w1) =>
            if is_HTTPError e then Some (Returned, emit (FetchFailed e) w1)
            else Some (Crashed e, w1)
        | (Ok [], w1) => Some (Enumerated download_jobs, w1)
        | (Ok media_page, w1) =>
            match enqueue_page out_dir k media_page download_jobs
                    (emit (Fetched page (length media_page)) w1) with
            | (Raise e, w2) => Some (Crashed e, w2)
            | (Ok jobs', w2) =>
                enumerate fuel' max_pages per_page cookie_header out_dir
                  (page + 1) (k + length media_page) jobs' w2
            end
        end
  end.

End Program.

Arguments mkWorld {Net}.
Arguments w_fs {Net}.
Arguments w_net {Net}.
Arguments w_requests {Net}.
Arguments w_slept {Net}.
Arguments w_out {Net}.
Arguments set_fs {Net}.
Arguments emit {Net}.
Arguments sleep {Net}.
Arguments http_get {Net}.
Arguments download_one {Net}.
Arguments run_jobs {Net}.
Arguments dispatch {Net}.
Arguments job_results {Net}.
Arguments retry_if_rate_limited {Net platform}.
Arguments fetch_page {Net platform}.
Arguments enqueue {Net}.
Arguments enqueue_page {Net}.
Arguments enumerate {Net platform}.

(** ** A scripted server

    An instance of the HTTP session for evaluating the program: the server
    answers the requests it receives with the replies of a script, in order,
    and drops the connection once the script is used up. *)

Definition scripted_get (rq : request) (script : list (res response))
  : res response * list (res response) :=
  match script with
  | r :: rest => (r, rest)
  | [] => (Raise RequestException, [])
  end.

(** An instance of the platform: [time.sleep] of CPython 3 on an [int]. The
    length is converted to nanoseconds in a signed 64-bit integer,
    [OverflowError] when it does not fit; then a negative length is a
    [ValueError]. Every other wait returns here; an operating system may
    still refuse the longest of them. *)
#[global] Instance cpython : Platform :=
  {| time_sleep t :=
       if 9223372036 <? Z.abs t then Raise OverflowError
       else if t <? 0 then Raise ValueError
       else Ok () |}.

(** A reply with a JSON body. *)
Definition json_reply (status : Z) (retry : option string) (body : json)
  : res response :=
  Ok (mkResponse status retry (Some body) [] false).

(** A reply that streams a file. *)
Definition file_reply (cs : list (list byte)) : res response :=
  Ok (mkResponse 200 None None cs false).

(** An error reply without a body. *)
Definition error_reply (status : Z) : res response :=
  Ok (mkResponse status None None [] false).

(** ** Worlds and jobs for the examples *)

(** The default of [--out]. *)
Definition out_dir : Path := mkPath false ["gopro_media"].

(** A fresh run against a scripted server. *)
Definition world0 (script : list (res response))
  (fs : gmap (bool * list string) node) : world (list (res response)) :=
  mkWorld fs script [] [] [].

Definition three_jobs : list (string * Path) :=
  [("https://h/a.mp4", Path_div out_dir "a.mp4");
   ("https://h/b.mp4", Path_div out_dir "b.mp4");
   ("https://h/c.mp4", Path_div out_dir "c.mp4")].

(** The first and third download succeed, the second is answered 404. *)
Definition second_job_fails : world (list (res response)) :=
  world0 [file_reply [["A"%byte]]; error_reply 404; file_reply [["C"%byte]]] ∅.

Definition one_job : list (string * Path) :=
  [("https://h/b.mp4", Path_div out_dir "b.mp4")].

(** A server that answers every download with 404. *)
Definition always_404 : world (list (res response)) :=
  world0 [error_reply 404; error_reply 404] ∅.

(** An output directory that holds [file] and no directory [sub]. *)
Definition fs_with_file : gmap (bool * list string) node :=
  {[ (false, ["gopro_media"]) := Dir;
     (false, ["gopro_media"; "file"]) := File ["A"%byte] ]}.

(** Records and listing replies for the examples. *)
Definition record_a : json :=
  JDict [("id", JStr "a"); ("url", JStr "https://h/a.mp4")].

Definition record_b : json :=
  JDict [("id", JStr "b");
         ("files", JList [JDict [("url", JStr "https://h/b.mp4")]])].

Definition record_c : json :=
  JDict [("id", JStr "c");
         ("versions", JDict [("hd", JDict [("url", JStr "https://h/c.mp4")])])].

(** A record whose file list holds URL strings instead of objects. *)
Definition record_bad_files : json :=
  JDict [("id", JStr "m1"); ("files", JList [JStr "https://h/a.mp4"])].

Definition page_reply (records : list json) : res response :=
  json_reply 200 None (JDict [("media", JList records)]).

(** Two pages of records, then an empty page. *)
Definition two_pages_then_empty : world (list (res response)) :=
  world0 [page_reply [record_a; record_b]; page_reply [record_c]; page_reply []] ∅.

(** A page with a malformed record, then an empty page. *)
Definition bad_page_then_empty : world (list (res response)) :=
  world0 [page_reply [record_bad_files]; page_reply []] ∅.

(** An empty top-level list beside a non-empty wrapped one. *)
Definition shadowed_body : list (string * json) :=
  [("media", JList []); ("response", JDict [("media", JList [record_a])])].

Definition shadowed_reply : world (list (res response)) :=
  world0 [json_reply 200 None (JDict shadowed_body)] ∅.

(** A 429 that advises two seconds, then a page. *)
Definition rate_limited_once : world (list (res response)) :=
  world0 [json_reply 429 (Some "2") JNull; page_reply [record_a]] ∅.

(** A 429 without the header, then a second 429, then a page never asked for. *)
Definition rate_limited_twice : world (list (res response)) :=
  world0 [json_reply 429 None JNull; json_reply 429 None JNull;
          page_reply [record_a]] ∅.

(** A 429 whose [Retry-After] is an HTTP date, then a page. *)
Definition rate_limited_until_date : world (list (res response)) :=
  world0 [json_reply 429 (Some "Wed, 21 Oct 2015 07:28:00 GMT") JNull;
          page_reply [record_a]] ∅.

(** ** Vocabulary of the statements *)

(** From [fs] to [fs']: everything is kept and whatever is new is a
    directory, so no file was created, written or removed. *)
Definition only_dirs_added (fs fs' : gmap (bool * list string) node) : Prop :=
  fs ⊆ fs' ∧
  ∀ k content, fs' !! k = Some (File content) → fs !! k = Some (File content).

(** The jobs reported as failed by a list of messages. *)
Definition failures (out : list event) : list (Path * string * exn) :=
  omap (λ ev, match ev with Failed dest url e => Some (dest, url, e) | _ => None end)
    out.

(** The jobs whose call of [download_one] raised, with the exception. *)
Definition failed_jobs (jobs : list (string * Path)) (results : list (res unit))
  : list (Path * string * exn) :=
  omap (λ jr : (string * Path) * res unit,
          match jr.2 with
          | Raise e => Some (jr.1.2, jr.1.1, e)
          | Ok _ => None
          end)
    (zip jobs results).

Section ServerVocabulary.

Context {Net : Type} (session_get : request → Net → res response * Net).
Context (urlparse_path : string → res string) (py_repr : json → string)
  (clock : nat → nat → Z).

(** The server in state [net] answers the request [rq] with a reply that is
    neither rate-limited nor an error and whose body unwraps to the page
    [pg]; [net'] is its next state. *)
Definition serves_page (rq : request) (net net' : Net) (pg : list json) : Prop :=
  ∃ resp body,
    session_get rq net = (Ok resp, net')
    ∧ raise_for_status resp = Ok ()
    ∧ json_body resp = Some body
    ∧ unwrap_records (py_or body (JDict [])) = Ok pg.

(** The server answers the listing requests for the pages [page],
    [page + 1], ... with [pages], in this order, ending in state [net_end]. *)
Fixpoint serves_pages (cookie_header : string) (per_page page : Z) (net : Net)
  (pages : list (list json)) (net_end : Net) : Prop :=
  match pages with
  | [] => net_end = net
  | pg :: rest =>
      ∃ net', serves_page (listing_request cookie_header page per_page) net net' pg
              ∧ serves_pages cookie_header per_page (page + 1) net' rest net_end
  end.

(** The job the loop of [main] queues for record number [k]: its first
    candidate, if it has one. *)
Definition first_job (out : Path) (k : nat) (media : json)
  : option (string * Path) :=
  match extract_downloads_of urlparse_path py_repr clock k media with
  | Ok ((url, fname) :: _) => Some (url, Path_div out fname)
  | _ => None
  end.

(** The jobs of a sequence of records numbered from [k]. *)
Fixpoint jobs_of (out : Path) (k : nat) (records : list json)
  : list (string * Path) :=
  match records with
  | [] => []
  | media :: rest => option_list (first_job out k media) ++ jobs_of out (S k) rest
  end.

(** The listing requests for [n] successive pages from [page] on. *)
Definition listing_requests (cookie_header : string) (per_page page : Z) (n : nat)
  : list request :=
  (λ i : nat, listing_request cookie_header (page + Z.of_nat i) per_page) <$> seq 0 n.

End ServerVocabulary.

(** * Properties *)

(** ** Tactics and basic facts *)

Ltac res_simpl := unfold mbind, res_bind, mret, res_ret in *; simpl in *.

Lemma bind_Ok_inv {A B} (c : res A) (k : A → res B) (b : B) :
  (x ← c; k x) = Ok b → ∃ a, c = Ok a ∧ k a = Ok b.
Proof. destruct c as [a|e]; res_simpl; [eauto | discriminate]. Qed.

Lemma is_Ok_true {A} (r : res A) : is_Ok r = true → ∃ a, r = Ok a.
Proof. destruct r; [eauto | discriminate]. Qed.

Lemma py_or_cases (a b : json) :
  (truthy a = true ∧ py_or a b = a) ∨ (truthy a = false ∧ py_or a b = b).
Proof. unfold py_or. destruct (truthy a); auto. Qed.

(** ** Strings and paths *)

Lemma split_on_nonempty sep s : ∃ w ws, split_on sep s = w :: ws.
Proof.
  induction s as [|c s (w & ws & IH)]; simpl; [eauto|].
  destruct (Ascii.eqb c sep); [eauto|]. rewrite IH. eauto.
Qed.

Lemma split_on_app sep a b :
  split_on sep (a +:+ String sep b) = split_on sep a ++ split_on sep b.
Proof.
  induction a as [|c a IH]; simpl.
  - by rewrite Ascii.eqb_refl.
  - destruct (Ascii.eqb c sep); [by rewrite IH|].
    rewrite IH. destruct (split_on_nonempty sep a) as (w & ws & ->). done.
Qed.

Lemma split_on_no_sep sep s : has_char sep s = false → split_on sep s = [s].
Proof.
  induction s as [|c s IH]; simpl; [done|].
  intros [Hc Hs]%orb_false_elim. rewrite Hc, IH by done. done.
Qed.

(** The name of a path that ends in a plain segment is that segment. *)
Lemma path_name_last_segment dir seg :
  has_char "/" seg = false → seg ≠ "" → seg ≠ "." →
  path_name (dir +:+ String "/" seg) = seg.
Proof.
  intros Hsep Hne Hdot. unfold path_name, path_parts.
  rewrite split_on_app, (split_on_no_sep _ seg Hsep), filter_app.
  rewrite (filter_cons_True _ seg []) by done.
  apply last_last.
Qed.

(** ** URL extractor *)

Section ExtractorProperties.

Context (urlparse_path : string → res string) (py_repr : json → string)
  (clock : nat → Z).

Lemma kept_truthy u : truthy u = true → kept u = [u].
Proof. intros H. unfold kept. rewrite filter_cons_True by done. done. Qed.

Lemma kept_falsy u : truthy u = false → kept u = [].
Proof.
  intros H. unfold kept. rewrite filter_cons_False; [done|]. congruence.
Qed.

Lemma add_candidate_inv media u ds ds' :
  add_candidate urlparse_path py_repr clock media u ds = Ok ds' →
  ∃ new, ds' = ds ++ new ∧ JStr <$> new.*1 = kept u.
Proof.
  unfold add_candidate. destruct (truthy u) eqn:Ht.
  - destruct u; try discriminate. intros H.
    apply bind_Ok_inv in H as (f & _ & H). injection H as <-.
    exists [(s, f)]. by rewrite kept_truthy.
  - intros [= <-]. exists []. by rewrite app_nil_r, kept_falsy.
Qed.

Lemma pick_filename_total t s media :
  is_Ok (urlparse_path s) = true →
  is_Ok (pick_filename urlparse_path py_repr t s media) = true.
Proof.
  intros H. apply is_Ok_true in H as [p Hp]. unfold pick_filename.
  rewrite Hp. res_simpl. by destruct (negb _).
Qed.

Lemma add_candidate_total media u ds :
  parseable urlparse_path u → is_Ok (add_candidate urlparse_path py_repr clock media u ds) = true.
Proof.
  intros Hp. unfold add_candidate. destruct (truthy u) eqn:Ht; [|done].
  destruct (Hp Ht) as (s & -> & Hs).
  apply (pick_filename_total (clock (length ds)) s media) in Hs.
  apply is_Ok_true in Hs as [f Hf]. rewrite Hf. done.
Qed.

(** A loop whose every step appends the candidates [G x] appends their
    concatenation. *)
Lemma for_each_inv {A} (G : A → list json)
    (body : A → list (string * string) → res (list (string * string))) :
  (∀ x ds ds', body x ds = Ok ds' →
     ∃ new, ds' = ds ++ new ∧ JStr <$> new.*1 = G x) →
  ∀ xs ds ds', for_each body xs ds = Ok ds' →
     ∃ new, ds' = ds ++ new ∧ JStr <$> new.*1 = concat (G <$> xs).
Proof.
  intros Hbody xs. induction xs as [|x xs IH]; intros ds ds' H; simpl in H.
  - injection H as <-. exists []. by rewrite app_nil_r.
  - apply bind_Ok_inv in H as (d1 & H1 & H2).
    apply Hbody in H1 as (n1 & -> & E1). apply IH in H2 as (n2 & -> & E2).
    exists (n1 ++ n2). split; [by rewrite app_assoc|].
    rewrite !fmap_app, E1, E2. done.
Qed.

Lemma for_each_total {A} (P : A → Prop)
    (body : A → list (string * string) → res (list (string * string))) :
  (∀ x ds, P x → is_Ok (body x ds) = true) →
  ∀ xs ds, Forall P xs → is_Ok (for_each body xs ds) = true.
Proof.
  intros Hbody xs. induction xs as [|x xs IH]; intros ds HP; simpl; [done|].
  inversion HP as [|? ? Hx Hxs]; subst.
  destruct (is_Ok_true _ (Hbody x ds Hx)) as [d1 ->]. res_simpl. by apply IH.
Qed.

Lemma concat_kept (us : list json) :
  concat (kept <$> us) = filter (λ v, truthy v = true) us.
Proof.
  induction us as [|u us IH]; [done|].
  rewrite fmap_cons, concat_cons, IH.
  destruct (truthy u) eqn:Hu.
  - rewrite kept_truthy, filter_cons_True by done. done.
  - rewrite kept_falsy, filter_cons_False by congruence. done.
Qed.

(** *** First loop *)

Lemma add_top_level_inv media ds ds' :
  add_top_level urlparse_path py_repr clock media ds = Ok ds' →
  ∃ new, ds' = ds ++ new ∧ JStr <$> new.*1 = top_level_candidates media.
Proof.
  intros H. unfold add_top_level in H.
  apply (for_each_inv (λ key, kept (py_get media key))) in H.
  - destruct H as (new & -> & E). exists new. split; [done|]. rewrite E.
    unfold top_level_candidates. rewrite <- concat_kept, <- list_fmap_compose. done.
  - intros x d d'. apply add_candidate_inv.
Qed.

Lemma add_top_level_total media ds :
  Forall (parseable urlparse_path) (top_level_candidates media) →
  is_Ok (add_top_level urlparse_path py_repr clock media ds) = true.
Proof.
  intros HP. unfold add_top_level.
  apply (for_each_total (λ key, parseable urlparse_path (py_get media key))).
  - intros x d Hx. by apply add_candidate_total.
  - apply Forall_forall. intros key Hkey Ht.
    rewrite Forall_forall in HP. apply HP; [|done].
    unfold top_level_candidates. apply list_elem_of_filter. split; [done|].
    apply list_elem_of_fmap. eauto.
Qed.

(** *** Second and third loops *)

Lemma concat_entry_kept (xs : list json) :
  concat (entry_kept <$> xs) = filter (λ v, truthy v = true) (omap dict_entry_url xs).
Proof.
  induction xs as [|x xs IH]; [done|].
  rewrite fmap_cons, concat_cons, IH. unfold entry_kept.
  replace (omap dict_entry_url (x :: xs))
    with (option_list (dict_entry_url x) ++ omap dict_entry_url xs)
    by (simpl; by destruct (dict_entry_url x)).
  by rewrite filter_app.
Qed.

Lemma concat_filter_fmap {A} (f : A → list json) (xs : list A) :
  concat ((λ x, filter (λ v, truthy v = true) (f x)) <$> xs)
  = filter (λ v, truthy v = true) (concat (f <$> xs)).
Proof.
  induction xs as [|x xs IH]; [done|].
  rewrite !fmap_cons, !concat_cons, filter_app, IH. done.
Qed.

Lemma add_file_entry_inv media x ds ds' :
  add_file_entry urlparse_path py_repr clock media x ds = Ok ds' →
  ∃ new, ds' = ds ++ new ∧ JStr <$> new.*1 = entry_kept x.
Proof.
  destruct x; simpl; try discriminate. apply add_candidate_inv.
Qed.

Lemma add_variant_entry_inv media x ds ds' :
  add_variant_entry urlparse_path py_repr clock media x ds = Ok ds' →
  ∃ new, ds' = ds ++ new ∧ JStr <$> new.*1 = entry_kept x.
Proof.
  destruct x; simpl; try apply add_candidate_inv;
    intros [= <-]; exists []; by rewrite app_nil_r.
Qed.

Lemma add_variant_inv media v ds ds' :
  add_variant urlparse_path py_repr clock media v ds = Ok ds' →
  ∃ new, ds' = ds ++ new
         ∧ JStr <$> new.*1 = filter (λ u, truthy u = true) (variant_urls v).
Proof.
  destruct v; simpl; try (intros [= <-]; exists []; by rewrite app_nil_r).
  - intros H. apply (for_each_inv entry_kept) in H.
    + destruct H as (new & -> & E). exists new. by rewrite E, concat_entry_kept.
    + intros x d d'. apply add_variant_entry_inv.
  - apply add_candidate_inv.
Qed.

Lemma add_files_inv media ds ds' :
  add_files urlparse_path py_repr clock media ds = Ok ds' →
  ∃ new, ds' = ds ++ new ∧ JStr <$> new.*1 = file_list_candidates media.
Proof.
  unfold add_files, file_list_candidates.
  destruct (files_field media) as [| | |s|xs|kvs]; try discriminate.
  - destruct s as [|c s]; simpl; [|discriminate].
    intros [= <-]. exists []. by rewrite app_nil_r.
  - intros H. apply (for_each_inv entry_kept) in H.
    + destruct H as (new & -> & E). exists new. by rewrite E, concat_entry_kept.
    + intros x d d'. apply add_file_entry_inv.
  - destruct kvs as [|[k v] kvs]; simpl; [|discriminate].
    intros [= <-]. exists []. by rewrite app_nil_r.
Qed.

Lemma add_versions_inv media ds ds' :
  add_versions urlparse_path py_repr clock media ds = Ok ds' →
  ∃ new, ds' = ds ++ new ∧ JStr <$> new.*1 = variant_candidates media.
Proof.
  unfold add_versions, variant_candidates.
  destruct (versions_field media) as [| | | | |kvs];
    try (intros [= <-]; exists []; by rewrite app_nil_r).
  intros H.
  apply (for_each_inv (λ v, filter (λ u, truthy u = true) (variant_urls v))) in H.
  - destruct H as (new & -> & E). exists new.
    by rewrite E, concat_filter_fmap.
  - intros x d d'. apply add_variant_inv.
Qed.

(** Whatever [extract_downloads] collects before deduplication is the
    candidates of the three tiers, in tier order. *)
Lemma collect_downloads_inv media ds :
  collect_downloads urlparse_path py_repr clock media = Ok ds →
  ∃ t1 t2 t3,
    ds = t1 ++ t2 ++ t3
    ∧ add_top_level urlparse_path py_repr clock media [] = Ok t1
    ∧ add_files urlparse_path py_repr clock media t1 = Ok (t1 ++ t2)
    ∧ add_versions urlparse_path py_repr clock media (t1 ++ t2) = Ok (t1 ++ t2 ++ t3)
    ∧ JStr <$> t1.*1 = top_level_candidates media
    ∧ JStr <$> t2.*1 = file_list_candidates media
    ∧ JStr <$> t3.*1 = variant_candidates media.
Proof.
  unfold collect_downloads. intros H.
  apply bind_Ok_inv in H as (d1 & H1 & H).
  apply bind_Ok_inv in H as (d2 & H2 & H3).
  destruct (add_top_level_inv _ _ _ H1) as (t1 & -> & E1).
  destruct (add_files_inv _ _ _ H2) as (t2 & -> & E2).
  destruct (add_versions_inv _ _ _ H3) as (t3 & -> & E3).
  simpl in *. exists t1, t2, t3. rewrite <- !app_assoc in *. done.
Qed.

Lemma collect_downloads_urls media ds :
  collect_downloads urlparse_path py_repr clock media = Ok ds →
  JStr <$> ds.*1 = candidates media.
Proof.
  intros H. apply collect_downloads_inv in H
    as (t1 & t2 & t3 & -> & _ & _ & _ & E1 & E2 & E3).
  unfold candidates. rewrite !fmap_app, E1, E2, E3. done.
Qed.

(** *** The loops do not raise on well-shaped records *)

Lemma parseable_kept u : Forall (parseable urlparse_path) (kept u) → parseable urlparse_path u.
Proof.
  intros H Ht. rewrite kept_truthy in H by done.
  inversion H as [|? ? Hu _]; subst. by apply Hu.
Qed.

Lemma add_variant_entry_total media x ds :
  Forall (parseable urlparse_path) (entry_kept x) →
  is_Ok (add_variant_entry urlparse_path py_repr clock media x ds) = true.
Proof.
  destruct x; simpl; try done. intros H.
  by apply add_candidate_total, parseable_kept.
Qed.

Lemma add_file_entry_total media x ds :
  (∃ e, x = JDict e) → Forall (parseable urlparse_path) (entry_kept x) →
  is_Ok (add_file_entry urlparse_path py_repr clock media x ds) = true.
Proof.
  intros [e ->] H. simpl. by apply add_candidate_total, parseable_kept.
Qed.

Lemma Forall_entry_kept (xs : list json) :
  Forall (parseable urlparse_path) (filter (λ v, truthy v = true) (omap dict_entry_url xs)) →
  Forall (λ x, Forall (parseable urlparse_path) (entry_kept x)) xs.
Proof.
  rewrite <- concat_entry_kept, Forall_concat, Forall_fmap. done.
Qed.

Lemma add_variant_total media v ds :
  Forall (parseable urlparse_path) (filter (λ u, truthy u = true) (variant_urls v)) →
  is_Ok (add_variant urlparse_path py_repr clock media v ds) = true.
Proof.
  destruct v; simpl; try done.
  - intros H. apply (for_each_total (λ x, Forall (parseable urlparse_path) (entry_kept x))).
    + intros x d. apply add_variant_entry_total.
    + by apply Forall_entry_kept.
  - intros H. by apply add_candidate_total, parseable_kept.
Qed.

Lemma add_files_total media ds :
  files_ok media → Forall (parseable urlparse_path) (file_list_candidates media) →
  is_Ok (add_files urlparse_path py_repr clock media ds) = true.
Proof.
  intros (xs & Hf & Hdict). unfold add_files, file_list_candidates.
  rewrite Hf. intros H.
  apply (for_each_total
           (λ x, (∃ e, x = JDict e) ∧ Forall (parseable urlparse_path) (entry_kept x))).
  - intros x d [Hx Hk]. by apply add_file_entry_total.
  - apply Forall_entry_kept in H. rewrite Forall_forall in H.
    apply Forall_forall. intros x Hx. split; [by apply Hdict | by apply H].
Qed.

Lemma add_versions_total media ds :
  Forall (parseable urlparse_path) (variant_candidates media) →
  is_Ok (add_versions urlparse_path py_repr clock media ds) = true.
Proof.
  unfold add_versions, variant_candidates.
  destruct (versions_field media) as [| | | | |kvs]; try done.
  intros H.
  apply (for_each_total
           (λ v, Forall (parseable urlparse_path) (filter (λ u, truthy u = true) (variant_urls v)))).
  - intros x d. apply add_variant_total.
  - rewrite <- concat_filter_fmap, Forall_concat, Forall_fmap in H. done.
Qed.

Lemma collect_downloads_total media :
  files_ok media → Forall (parseable urlparse_path) (candidates media) →
  is_Ok (collect_downloads urlparse_path py_repr clock media) = true.
Proof.
  unfold candidates. rewrite !Forall_app. intros Hf (H1 & H2 & H3).
  unfold collect_downloads.
  destruct (is_Ok_true _ (add_top_level_total media [] H1)) as [d1 ->].
  destruct (is_Ok_true _ (add_files_total media d1 Hf H2)) as [d2 E2].
  res_simpl. rewrite E2. by apply add_versions_total.
Qed.

(** *** The deduplication loop *)

Lemma fold_unique_step l seen acc :
  (fold_left unique_step l (seen, acc)).2 = acc ++ uniq_from seen l.
Proof.
  revert seen acc. induction l as [|c l IH]; intros seen acc; simpl.
  - by rewrite app_nil_r.
  - unfold unique_step at 2. simpl. destruct (decide (c.1 ∈ seen)).
    + apply IH.
    + rewrite IH, <- app_assoc. done.
Qed.

Lemma unique_of_uniq_from l : unique_of l = uniq_from ∅ l.
Proof. unfold unique_of. by rewrite fold_unique_step. Qed.

Lemma uniq_from_urls seen l u :
  u ∈ (uniq_from seen l).*1 ↔ u ∈ l.*1 ∧ u ∉ seen.
Proof.
  revert seen. induction l as [|c l IH]; intros seen; cbn [uniq_from].
  - split; [intros H; by apply elem_of_nil in H | intros [H _]; by apply elem_of_nil in H].
  - destruct (decide (c.1 ∈ seen)) as [Hin|Hnin].
    + rewrite IH, fmap_cons, elem_of_cons. split.
      * intros [H1 H2]. split; [by right | done].
      * intros [[->|H1] H2]; [done | by split].
    + rewrite !fmap_cons, !elem_of_cons, IH. split.
      * intros [->|[H1 H2]]; [split; [by left | done] | split; [by right |]].
        intros H. apply H2, elem_of_union. by right.
      * intros [[->|H1] H2]; [by left |].
        destruct (decide (u = c.1)) as [->|Hne]; [by left | right].
        split; [done |].
        intros [H%elem_of_singleton|H]%elem_of_union; done.
Qed.

Lemma uniq_from_NoDup seen l : NoDup (uniq_from seen l).*1.
Proof.
  revert seen. induction l as [|c l IH]; intros seen; simpl.
  - constructor.
  - destruct (decide (c.1 ∈ seen)); [apply IH|].
    rewrite fmap_cons. constructor; [|apply IH].
    rewrite uniq_from_urls. intros [_ H]. apply H, elem_of_union. left.
    by apply elem_of_singleton.
Qed.

Lemma uniq_from_sublist seen l : sublist (uniq_from seen l) l.
Proof.
  revert seen. induction l as [|c l IH]; intros seen; simpl.
  - constructor.
  - destruct (decide (c.1 ∈ seen)).
    + by apply sublist_cons.
    + by apply sublist_skip.
Qed.

(** The entry kept for a URL is its first occurrence. *)
Lemma uniq_from_first seen pre c post :
  c.1 ∉ pre.*1 → c.1 ∉ seen → c ∈ uniq_from seen (pre ++ c :: post).
Proof.
  revert seen. induction pre as [|d pre IH]; intros seen Hpre Hseen; simpl.
  - destruct (decide (c.1 ∈ seen)); [done|]. apply elem_of_cons. by left.
  - rewrite fmap_cons, not_elem_of_cons in Hpre. destruct Hpre as [Hne Hpre].
    destruct (decide (d.1 ∈ seen)).
    + by apply IH.
    + apply elem_of_cons. right. apply IH; [done|].
      intros [H%elem_of_singleton|H]%elem_of_union; [|done].
      apply Hne. done.
Qed.

Lemma uniq_from_NoDup_id seen l :
  NoDup l.*1 → (∀ u, u ∈ l.*1 → u ∉ seen) → uniq_from seen l = l.
Proof.
  revert seen. induction l as [|c l IH]; intros seen Hnd Hseen; simpl; [done|].
  rewrite fmap_cons in Hnd. apply NoDup_cons in Hnd as [Hc Hnd].
  destruct (decide (c.1 ∈ seen)) as [Hin|_].
  - exfalso. apply (Hseen c.1); [|done]. rewrite fmap_cons. apply elem_of_cons. by left.
  - f_equal. apply IH; [done|]. intros u Hu.
    assert (u ∉ seen) by (apply Hseen; rewrite fmap_cons; apply elem_of_cons; by right).
    intros [->%elem_of_singleton|?]%elem_of_union; done.
Qed.

Lemma NoDup_fst_inj (l : list (string * string)) c d :
  NoDup l.*1 → c ∈ l → d ∈ l → c.1 = d.1 → c = d.
Proof.
  induction l as [|x l IH]; intros Hnd Hc Hd E; [by apply elem_of_nil in Hc|].
  rewrite fmap_cons in Hnd. apply NoDup_cons in Hnd as [Hx Hnd].
  apply elem_of_cons in Hc as [->|Hc]; apply elem_of_cons in Hd as [->|Hd].
  - done.
  - exfalso. apply Hx. rewrite E. apply list_elem_of_fmap. eauto.
  - exfalso. apply Hx. rewrite <- E. apply list_elem_of_fmap. eauto.
  - by apply IH.
Qed.

(** *** The claims about the extractor *)

(** C5 — Extractor tier ordering. For a record whose file list is a list of
    objects and whose candidate URLs are strings [urlparse] accepts, all
    distinct, the three loops succeed one after the other, each returning the
    list it was given with its own tier's candidates appended, and
    [extract_downloads] returns the top-level candidates, then the file-list
    candidates, then the variant candidates. *)
Theorem extract_downloads_tier_order (media : list (string * json)) :
  files_ok media →
  Forall (parseable urlparse_path) (candidates media) →
  NoDup (candidates media) →
  ∃ t1 t2 t3,
    add_top_level urlparse_path py_repr clock media [] = Ok t1
    ∧ add_files urlparse_path py_repr clock media t1 = Ok (t1 ++ t2)
    ∧ add_versions urlparse_path py_repr clock media (t1 ++ t2) = Ok (t1 ++ t2 ++ t3)
    ∧ JStr <$> t1.*1 = top_level_candidates media
    ∧ JStr <$> t2.*1 = file_list_candidates media
    ∧ JStr <$> t3.*1 = variant_candidates media
    ∧ extract_downloads urlparse_path py_repr clock media = Ok (t1 ++ t2 ++ t3).
Proof.
  intros Hf Hp Hnd.
  destruct (is_Ok_true _ (collect_downloads_total media Hf Hp)) as [ds Hds].
  pose proof (collect_downloads_urls _ _ Hds) as Hurls.
  destruct (collect_downloads_inv _ _ Hds)
    as (t1 & t2 & t3 & -> & H1 & H2 & H3 & E1 & E2 & E3).
  exists t1, t2, t3. repeat (split; [done|]).
  unfold extract_downloads. rewrite Hds. res_simpl. f_equal.
  rewrite unique_of_uniq_from. apply uniq_from_NoDup_id.
  - rewrite <- Hurls in Hnd. by apply NoDup_fmap_1 in Hnd.
  - intros u _. apply not_elem_of_empty.
Qed.

(** C6 — Extractor deduplication. The list [extract_downloads] returns holds
    each URL once; it is a subsequence of the collected list, it keeps the
    first entry collected for each URL, and every candidate URL of the record
    has exactly one entry in it, however many tiers expose it. *)
Theorem extract_downloads_dedup (media : list (string * json))
    (out : list (string * string)) :
  extract_downloads urlparse_path py_repr clock media = Ok out →
  ∃ downloads,
    collect_downloads urlparse_path py_repr clock media = Ok downloads
    ∧ JStr <$> downloads.*1 = candidates media
    ∧ NoDup out.*1
    ∧ sublist out downloads
    ∧ (∀ pre c post,
         downloads = pre ++ c :: post → c.1 ∉ pre.*1 → c ∈ out)
    ∧ (∀ u, JStr u ∈ candidates media →
         ∃ f, (u, f) ∈ out ∧ ∀ c, c ∈ out → c.1 = u → c = (u, f)).
Proof.
  unfold extract_downloads. intros H.
  apply bind_Ok_inv in H as (ds & Hds & [= <-]).
  pose proof (collect_downloads_urls _ _ Hds) as Hurls.
  rewrite unique_of_uniq_from.
  exists ds. split; [done|]. split; [done|].
  split; [apply uniq_from_NoDup|]. split; [apply uniq_from_sublist|]. split.
  - intros pre c post -> Hpre. apply uniq_from_first; [done|].
    apply not_elem_of_empty.
  - intros u Hu. rewrite <- Hurls in Hu.
    apply list_elem_of_fmap in Hu as (u' & [= <-] & Hu).
    assert (u ∈ (uniq_from ∅ ds).*1) as Hin
      by (apply uniq_from_urls; split; [done | apply not_elem_of_empty]).
    apply list_elem_of_fmap in Hin as ([u' f] & E & Hc). simpl in E. subst u'.
    exists f. split; [done|]. intros c Hc' Ec.
    apply (NoDup_fst_inj (uniq_from ∅ ds)); [apply uniq_from_NoDup|done..].
Qed.

(** Wrong-shaped [versions] values are skipped by the third loop: its
    [isinstance] guards make it return the list unchanged. *)
Lemma add_versions_wrong_shape media ds :
  (∀ kvs, versions_field media ≠ JDict kvs) →
  add_versions urlparse_path py_repr clock media ds = Ok ds.
Proof.
  intros H. unfold add_versions.
  destruct (versions_field media); try done. by destruct (H kvs).
Qed.

(** C7 — Extractor totality on malformed input fails on the code: the second
    loop has none of the guards of the third. A file list that holds URL
    strings instead of objects raises [AttributeError], a [files] field that
    is a number raises [TypeError], and a top-level URL field that is a number
    raises [AttributeError]; the same shapes under [versions] are skipped. *)
Theorem extract_downloads_raises_on_malformed_files :
  extract_downloads urlparse_path py_repr clock
    [("id", JStr "m1"); ("files", JList [JStr "https://h/a.mp4"])]
  = Raise AttributeError
  ∧ extract_downloads urlparse_path py_repr clock
      [("id", JStr "m1"); ("files", JInt 5)]
    = Raise TypeError
  ∧ extract_downloads urlparse_path py_repr clock
      [("id", JStr "m1"); ("url", JInt 5)]
    = Raise AttributeError
  ∧ extract_downloads urlparse_path py_repr clock
      [("id", JStr "m1"); ("versions", JList [JStr "https://h/a.mp4"])]
    = Ok []
  ∧ extract_downloads urlparse_path py_repr clock
      [("id", JStr "m1"); ("versions", JInt 5)]
    = Ok [].
Proof. repeat split; reflexivity. Qed.

(** C8 — Filename fallback. When [urlparse] yields a path, the filename is
    the name of that path if it has one: the last segment of a path that ends
    in a plain segment. Otherwise it is the record's [id] rendered as text,
    the identifier itself when that is a string, and the clock reading when
    the record has no [id]. *)
Theorem pick_filename_fallback (t : Z) (url : string)
    (media : list (string * json)) (path : string) :
  urlparse_path url = Ok path →
  (path_name path ≠ "" →
     pick_filename urlparse_path py_repr t url media = Ok (path_name path))
  ∧ (∀ dir seg,
       path = dir +:+ String "/" seg →
       has_char "/" seg = false → seg ≠ "" → seg ≠ "." →
       pick_filename urlparse_path py_repr t url media = Ok seg)
  ∧ (path_name path = "" →
     (∀ v, dict_get media "id" = Some v →
        pick_filename urlparse_path py_repr t url media = Ok (py_str py_repr v))
     ∧ (∀ s, dict_get media "id" = Some (JStr s) →
        pick_filename urlparse_path py_repr t url media = Ok s)
     ∧ (dict_get media "id" = None →
        pick_filename urlparse_path py_repr t url media = Ok (string_of_Z t))).
Proof.
  intros Hp. unfold pick_filename. rewrite Hp. res_simpl.
  assert (∀ n, n ≠ "" → negb (String.eqb n "") = true) as Hne.
  { intros n Hn. apply negb_true_iff, String.eqb_neq. done. }
  split; [|split].
  - intros H. by rewrite Hne.
  - intros dir seg -> Hsep Hs Hdot.
    rewrite (path_name_last_segment dir seg) by done. by rewrite Hne.
  - intros ->. simpl. repeat split.
    + by intros v ->.
    + by intros s ->.
    + by intros ->.
Qed.

End ExtractorProperties.

(** *** The extractor on concrete records *)

(** A record with one candidate in the top-level tier, one in the file list
    and two under [versions]. *)
Definition media_three_tiers : list (string * json) :=
  [("id", JStr "m1");
   ("url", JStr "https://h/a.mp4");
   ("files", JList [JDict [("url", JStr "https://h/b.mp4")]]);
   ("versions",
    JDict [("hd", JDict [("url", JStr "https://h/c.mp4")]);
           ("sd", JList [JDict [("downloadUrl", JStr "https://h/d.mp4")]])])].

(** A record that exposes one URL both at top level and in its file list. *)
Definition media_same_url_twice : list (string * json) :=
  [("id", JStr "m1");
   ("url", JStr "https://h/a.mp4");
   ("files", JList [JDict [("url", JStr "https://h/a.mp4")]])].

Example extract_three_tiers :
  extract_downloads urlparse_path_cpython repr_opaque (λ _, 1700000000)
    media_three_tiers
  = Ok [("https://h/a.mp4", "a.mp4"); ("https://h/b.mp4", "b.mp4");
        ("https://h/c.mp4", "c.mp4"); ("https://h/d.mp4", "d.mp4")].
Proof. vm_compute. reflexivity. Qed.

Example extract_same_url_twice :
  collect_downloads urlparse_path_cpython repr_opaque (λ _, 1700000000)
    media_same_url_twice
  = Ok [("https://h/a.mp4", "a.mp4"); ("https://h/a.mp4", "a.mp4")]
  ∧ extract_downloads urlparse_path_cpython repr_opaque (λ _, 1700000000)
      media_same_url_twice
    = Ok [("https://h/a.mp4", "a.mp4")].
Proof. split; vm_compute; reflexivity. Qed.

Lemma extract_downloads_tier_order_witness :
  ∃ t1 t2 t3,
    add_top_level urlparse_path_cpython repr_opaque (λ _, 1700000000)
      media_three_tiers [] = Ok t1
    ∧ add_files urlparse_path_cpython repr_opaque (λ _, 1700000000)
        media_three_tiers t1 = Ok (t1 ++ t2)
    ∧ add_versions urlparse_path_cpython repr_opaque (λ _, 1700000000)
        media_three_tiers (t1 ++ t2) = Ok (t1 ++ t2 ++ t3)
    ∧ JStr <$> t1.*1 = top_level_candidates media_three_tiers
    ∧ JStr <$> t2.*1 = file_list_candidates media_three_tiers
    ∧ JStr <$> t3.*1 = variant_candidates media_three_tiers
    ∧ extract_downloads urlparse_path_cpython repr_opaque (λ _, 1700000000)
        media_three_tiers = Ok (t1 ++ t2 ++ t3).
Proof.
  assert (candidates media_three_tiers
          = [JStr "https://h/a.mp4"; JStr "https://h/b.mp4";
             JStr "https://h/c.mp4"; JStr "https://h/d.mp4"]) as Hc
    by (vm_compute; reflexivity).
  apply (extract_downloads_tier_order urlparse_path_cpython repr_opaque
           (λ _, 1700000000) media_three_tiers).
  - exists [JDict [("url", JStr "https://h/b.mp4")]]. split; [reflexivity|].
    intros x Hx. apply list_elem_of_singleton in Hx as ->. eauto.
  - rewrite Hc. repeat constructor; intros _; eexists; split; reflexivity.
  - rewrite Hc.
    repeat (apply NoDup_cons_2;
            [rewrite ?not_elem_of_cons; repeat split;
             try discriminate; apply not_elem_of_nil|]).
    apply NoDup_nil_2.
Defined.

Lemma extract_downloads_dedup_witness :
  ∃ downloads,
    collect_downloads urlparse_path_cpython repr_opaque (λ _, 1700000000)
      media_same_url_twice = Ok downloads
    ∧ JStr <$> downloads.*1 = candidates media_same_url_twice
    ∧ NoDup [("https://h/a.mp4", "a.mp4")].*1
    ∧ sublist [("https://h/a.mp4", "a.mp4")] downloads
    ∧ (∀ pre c post,
         downloads = pre ++ c :: post → c.1 ∉ pre.*1 →
         c ∈ [("https://h/a.mp4", "a.mp4")])
    ∧ (∀ u, JStr u ∈ candidates media_same_url_twice →
         ∃ f, (u, f) ∈ [("https://h/a.mp4", "a.mp4")]
              ∧ ∀ c, c ∈ [("https://h/a.mp4", "a.mp4")] → c.1 = u → c = (u, f)).
Proof.
  apply (extract_downloads_dedup urlparse_path_cpython repr_opaque
           (λ _, 1700000000) media_same_url_twice).
  vm_compute. reflexivity.
Defined.

Example pick_filename_examples :
  pick_filename urlparse_path_cpython repr_opaque 1700000000
    "https://cdn.example.com/videos/GX010001.MP4?sig=abc" [("id", JStr "m1")]
  = Ok "GX010001.MP4"
  ∧ pick_filename urlparse_path_cpython repr_opaque 1700000000
      "https://example.com" [("id", JStr "m1")] = Ok "m1"
  ∧ pick_filename urlparse_path_cpython repr_opaque 1700000000
      "https://example.com" [("id", JInt 42)] = Ok "42"
  ∧ pick_filename urlparse_path_cpython repr_opaque 1700000000
      "https://example.com/" [("name", JStr "clip")] = Ok "1700000000"
  ∧ pick_filename urlparse_path_cpython repr_opaque 1700000000
      "https://example.com/a/b/" [] = Ok "b".
Proof. repeat split; vm_compute; reflexivity. Qed.

Lemma pick_filename_fallback_witness :
  (path_name "" ≠ "" →
     pick_filename urlparse_path_cpython repr_opaque 1700000000
       "https://example.com" [("id", JStr "m1")] = Ok (path_name ""))
  ∧ (∀ dir seg,
       "" = dir +:+ String "/" seg →
       has_char "/" seg = false → seg ≠ "" → seg ≠ "." →
       pick_filename urlparse_path_cpython repr_opaque 1700000000
         "https://example.com" [("id", JStr "m1")] = Ok seg)
  ∧ (path_name "" = "" →
     (∀ v, dict_get [("id", JStr "m1")] "id" = Some v →
        pick_filename urlparse_path_cpython repr_opaque 1700000000
          "https://example.com" [("id", JStr "m1")] = Ok (py_str repr_opaque v))
     ∧ (∀ s, dict_get [("id", JStr "m1")] "id" = Some (JStr s) →
        pick_filename urlparse_path_cpython repr_opaque 1700000000
          "https://example.com" [("id", JStr "m1")] = Ok s)
     ∧ (dict_get [("id", JStr "m1")] "id" = None →
        pick_filename urlparse_path_cpython repr_opaque 1700000000
          "https://example.com" [("id", JStr "m1")] = Ok (string_of_Z 1700000000))).
Proof.
  apply (pick_filename_fallback urlparse_path_cpython repr_opaque 1700000000
           "https://example.com" [("id", JStr "m1")] "").
  vm_compute. reflexivity.
Defined.

(** ** File system *)

Lemma node_at_mono (fs fs' : gmap (bool * list string) node) a q n :
  fs ⊆ fs' → node_at fs a q = Some n → node_at fs' a q = Some n.
Proof.
  intros Hsub. destruct q as [|c q]; simpl; [done|].
  intros H. by eapply lookup_weaken.
Qed.

Lemma walk_app fs a cur xs ys :
  walk fs a cur (xs ++ ys) = (q ← walk fs a cur xs; walk fs a q ys).
Proof.
  revert cur. induction xs as [|x xs IH]; intros cur; simpl; [done|].
  destruct (node_at fs a cur) as [[|]|]; first [done | apply IH].
Qed.

Lemma walk_mono (fs fs' : gmap (bool * list string) node) a cur cs q :
  fs ⊆ fs' → walk fs a cur cs = Ok q → walk fs' a cur cs = Ok q.
Proof.
  intros Hsub. revert cur. induction cs as [|c cs IH]; intros cur; simpl; [done|].
  destruct (node_at fs a cur) as [[|]|] eqn:E; try done.
  rewrite (node_at_mono _ _ _ _ _ Hsub E). apply IH.
Qed.

Lemma stat_Ok_inv fs p n :
  stat fs p = Ok n →
  ∃ q, resolve fs p = Ok q ∧ node_at fs (absolute p) q = Some n.
Proof.
  unfold stat. intros H. apply bind_Ok_inv in H as (q & Hq & H).
  exists q. split; [done|]. destruct (node_at fs (absolute p) q); by inversion H.
Qed.

Lemma stat_Ok_intro fs p q n :
  resolve fs p = Ok q → node_at fs (absolute p) q = Some n → stat fs p = Ok n.
Proof. unfold stat. intros -> H. res_simpl. by rewrite H. Qed.

Lemma stat_mono (fs fs' : gmap (bool * list string) node) p n :
  fs ⊆ fs' → stat fs p = Ok n → stat fs' p = Ok n.
Proof.
  intros Hsub (q & Hq & Hn)%stat_Ok_inv.
  apply (stat_Ok_intro _ _ q); [by eapply walk_mono | by eapply node_at_mono].
Qed.

Lemma Path_exists_mono (fs fs' : gmap (bool * list string) node) p :
  fs ⊆ fs' → Path_exists fs p = true → Path_exists fs' p = true.
Proof.
  unfold Path_exists. intros Hsub [n Hn]%is_Ok_true.
  by rewrite (stat_mono _ _ _ _ Hsub Hn).
Qed.

Lemma Path_is_dir_stat fs p : Path_is_dir fs p = true ↔ stat fs p = Ok Dir.
Proof.
  unfold Path_is_dir. destruct (stat fs p) as [[|]|]; split; congruence.
Qed.

Lemma parts_snoc_parent p init c :
  parts p = init ++ [c] → parts (Path_parent p) = init.
Proof. intros H. simpl. rewrite H. apply removelast_last. Qed.

(** Resolving a path whose last part is [c]: the directory of the parent,
    then one step. *)
Lemma resolve_snoc fs p init c q :
  parts p = init ++ [c] →
  resolve fs p = Ok q ↔
  ∃ dir, resolve fs (Path_parent p) = Ok dir
         ∧ node_at fs (absolute p) dir = Some Dir
         ∧ q = (if String.eqb c ".." then removelast dir else dir ++ [c]).
Proof.
  intros Hp. unfold resolve. rewrite (parts_snoc_parent _ _ _ Hp), Hp, walk_app.
  simpl. split.
  - intros (dir & Hdir & H)%bind_Ok_inv. exists dir. split; [done|].
    simpl in H. destruct (node_at fs (absolute p) dir) as [[|]|]; try done.
    by injection H as <-.
  - intros (dir & -> & Hn & ->). res_simpl. by rewrite Hn.
Qed.

Lemma only_dirs_added_refl fs : only_dirs_added fs fs.
Proof. split; [done | auto]. Qed.

Lemma only_dirs_added_trans fs1 fs2 fs3 :
  only_dirs_added fs1 fs2 → only_dirs_added fs2 fs3 → only_dirs_added fs1 fs3.
Proof.
  intros [S1 F1] [S2 F2]. split; [by etrans | eauto].
Qed.

Lemma only_dirs_added_insert (fs : gmap (bool * list string) node) k :
  fs !! k = None → only_dirs_added fs (<[k := Dir]> fs).
Proof.
  intros Hk. split; [by apply insert_subseteq|].
  intros k' content. destruct (decide (k = k')) as [<-|Hne].
  - by rewrite lookup_insert_eq.
  - by rewrite lookup_insert_ne.
Qed.

(** A successful [os.mkdir] adds one directory, at the place the path
    resolves to. *)
Lemma os_mkdir_Ok_inv fs p fs' :
  os_mkdir fs p = Ok fs' →
  ∃ q, fs !! (absolute p, q) = None
       ∧ fs' = <[(absolute p, q) := Dir]> fs
       ∧ resolve fs p = Ok q
       ∧ q ≠ [].
Proof.
  unfold os_mkdir. destruct (last (parts p)) as [c|] eqn:Hl; [|done].
  apply last_Some in Hl as [init Hp]. intros H.
  apply bind_Ok_inv in H as (dir & Hdir & H).
  destruct (node_at fs (absolute p) dir) as [[|]|] eqn:Hn; try done.
  destruct (String.eqb c "..") eqn:Hc; [done|].
  destruct (node_at fs (absolute p) (dir ++ [c])) eqn:Hq; [done|].
  injection H as <-. exists (dir ++ [c]).
  assert (dir ++ [c] ≠ []) as Hne by (by destruct dir).
  split; [|split; [done|split; [|done]]].
  - unfold node_at in Hq. by destruct (dir ++ [c]).
  - apply (resolve_snoc _ _ init c); [done|]. exists dir. by rewrite Hc.
Qed.

Lemma node_at_lookup (fs : gmap (bool * list string) node) a q n :
  q ≠ [] → fs !! (a, q) = Some n → node_at fs a q = Some n.
Proof. by destruct q. Qed.

Lemma os_mkdir_Ok fs p fs' :
  os_mkdir fs p = Ok fs' → only_dirs_added fs fs' ∧ Path_is_dir fs' p = true.
Proof.
  intros (q & Hfree & -> & Hq & Hne)%os_mkdir_Ok_inv.
  split; [by apply only_dirs_added_insert|].
  apply Path_is_dir_stat, (stat_Ok_intro _ _ q).
  - eapply walk_mono; [by apply insert_subseteq | done].
  - apply node_at_lookup; [done|]. by rewrite lookup_insert_eq.
Qed.

Lemma mkdir_exist_ok_Ok fs p fs' :
  mkdir_exist_ok fs p = Ok fs' → only_dirs_added fs fs' ∧ Path_is_dir fs' p = true.
Proof.
  unfold mkdir_exist_ok. destruct (os_mkdir fs p) as [fs1|e] eqn:E.
  - intros [= <-]. by apply os_mkdir_Ok.
  - destruct e; try done; destruct (Path_is_dir fs p) eqn:Hd; try done;
      intros [= <-]; (split; [apply only_dirs_added_refl | done]).
Qed.

(** [mkdir(parents=True, exist_ok=True)] only adds directories, and leaves
    the path a directory. *)
Lemma mkdir_parents_from_Ok n fs p fs' :
  mkdir_parents_from n fs p = Ok fs' →
  only_dirs_added fs fs' ∧ Path_is_dir fs' p = true.
Proof.
  revert fs p fs'. induction n as [|n IH]; intros fs p fs'; simpl;
    destruct (os_mkdir fs p) as [fs1|e] eqn:E;
    try (intros [= <-]; by apply os_mkdir_Ok);
    destruct e; try done;
    try (destruct (Path_is_dir fs p) eqn:Hd; try done;
         intros [= <-]; (split; [apply only_dirs_added_refl | done])).
  intros (fs1 & H1 & H2)%bind_Ok_inv.
  apply IH in H1 as [G1 _]. apply mkdir_exist_ok_Ok in H2 as [G2 D2].
  split; [by eapply only_dirs_added_trans | done].
Qed.

Lemma Path_mkdir_Ok fs p fs' :
  Path_mkdir fs p = Ok fs' → only_dirs_added fs fs' ∧ Path_is_dir fs' p = true.
Proof. apply mkdir_parents_from_Ok. Qed.

(** On a directory [os.mkdir] fails with [FileExistsError], so the recursive
    [mkdir] changes nothing. *)
Lemma os_mkdir_on_dir fs p :
  Path_is_dir fs p = true → os_mkdir fs p = Raise FileExistsError.
Proof.
  intros (q & Hq & Hn)%Path_is_dir_stat%stat_Ok_inv. unfold os_mkdir.
  destruct (last (parts p)) as [c|] eqn:Hl; [|done].
  apply last_Some in Hl as [init Hp].
  apply (resolve_snoc _ _ init c) in Hq as (dir & -> & Hdir & ->); [|done].
  res_simpl. rewrite Hdir. destruct (String.eqb c ".."); [done|]. by rewrite Hn.
Qed.

Lemma Path_mkdir_on_dir fs p :
  Path_is_dir fs p = true → Path_mkdir fs p = Ok fs.
Proof.
  intros Hd. unfold Path_mkdir.
  destruct (length (parts p)); simpl; rewrite (os_mkdir_on_dir _ _ Hd), Hd; done.
Qed.

(** The parent of a path that exists is a directory. *)
Lemma exists_parent_is_dir fs p :
  Path_exists fs p = true → Path_is_dir fs (Path_parent p) = true.
Proof.
  unfold Path_exists. intros [n (q & Hq & Hn)%stat_Ok_inv]%is_Ok_true.
  apply Path_is_dir_stat.
  destruct (last (parts p)) as [c|] eqn:Hl.
  - apply last_Some in Hl as [init Hp].
    apply (resolve_snoc _ _ init c) in Hq as (dir & Hdir & Hd & _); [|done].
    by apply (stat_Ok_intro _ _ dir).
  - apply last_None in Hl. apply (stat_Ok_intro _ _ []); [|done].
    unfold resolve. simpl. by rewrite Hl.
Qed.

(** [open(p, "wb")] on a path that does not exist creates an empty file at
    the place the path resolves to. *)
Lemma open_wb_fresh fs p fs' q :
  Path_exists fs p = false → open_wb fs p = Ok (fs', q) →
  fs !! (absolute p, q) = None
  ∧ fs' = <[(absolute p, q) := File []]> fs
  ∧ resolve fs p = Ok q
  ∧ q ≠ [].
Proof.
  intros Hex. unfold open_wb.
  destruct (last (parts p)) as [c|] eqn:Hl; [|done].
  apply last_Some in Hl as [init Hp]. intros H.
  apply bind_Ok_inv in H as (dir & Hdir & H).
  destruct (node_at fs (absolute p) dir) as [[|]|] eqn:Hn; try done.
  destruct (String.eqb c "..") eqn:Hc; [done|].
  assert (resolve fs p = Ok (dir ++ [c])) as Hres.
  { apply (resolve_snoc _ _ init c); [done|]. exists dir. by rewrite Hc. }
  assert (dir ++ [c] ≠ []) as Hne by (by destruct dir).
  assert (node_at fs (absolute p) (dir ++ [c]) = None) as Hfree.
  { destruct (node_at fs (absolute p) (dir ++ [c])) as [n|] eqn:Hq; [|done].
    unfold Path_exists in Hex. by rewrite (stat_Ok_intro _ _ _ n Hres Hq) in Hex. }
  rewrite Hfree in H. injection H as <- <-.
  split; [|done]. unfold node_at in Hfree. by destruct (dir ++ [c]).
Qed.

Lemma file_write_insert (fs : gmap (bool * list string) node) a q c0 chunk :
  file_write (<[(a, q) := File c0]> fs) a q chunk
  = <[(a, q) := File (c0 ++ chunk)]> fs.
Proof.
  unfold file_write. rewrite lookup_insert_eq. apply insert_insert_eq.
Qed.

(** ** Downloader and dispatch loop *)

Section DownloadProperties.

Context {Net : Type} (session_get : request → Net → res response * Net).

Lemma set_fs_same (w : world Net) : set_fs (w_fs w) w = w.
Proof. by destruct w. Qed.

Lemma write_chunks_insert (fs : gmap (bool * list string) node) a q c0 cs :
  write_chunks (<[(a, q) := File c0]> fs) a q cs
  = <[(a, q) := File (c0 ++ concat cs)]> fs.
Proof.
  unfold write_chunks. revert c0. induction cs as [|chunk cs IH]; intros c0; simpl.
  - by rewrite app_nil_r.
  - destruct chunk as [|b chunk].
    + apply IH.
    + rewrite file_write_insert, IH, <- app_assoc. done.
Qed.

(** A call whose destination exists skips: it returns normally and changes
    nothing but the printed output. *)
Lemma download_one_skip url dest cookie_header (w : world Net) :
  Path_exists (w_fs w) dest = true →
  download_one session_get url dest cookie_header w
  = (Ok (), emit (Skipping dest) w).
Proof.
  intros Hex. unfold download_one.
  rewrite (Path_mkdir_on_dir _ _ (exists_parent_is_dir _ _ Hex)).
  by rewrite set_fs_same, Hex.
Qed.

Ltac download_cases H :=
  unfold download_one, http_get in H;
  destruct (Path_mkdir _ _) as [?fs1|?e] eqn:?Hmk in H;
  [ destruct (Path_exists _ _) eqn:?Hex in H;
    [ | simpl in H;
        destruct (session_get _ _) as [[?resp|?e] ?net'] eqn:?Hget in H;
        [ destruct (raise_for_status _) as [[]|?e] eqn:?Hst in H;
          [ simpl in H;
            destruct (open_wb _ _) as [[?fs2 ?q]|?e] eqn:?Hop in H;
            [ destruct (stream_breaks _) eqn:?Hbr in H | ]
          | ]
        | ] ]
  | ];
  simplify_eq; simpl in *.

(** [download_one] removes nothing from the file system. *)
Lemma download_one_mono url dest cookie_header (w w' : world Net) r :
  download_one session_get url dest cookie_header w = (r, w') →
  w_fs w ⊆ w_fs w'.
Proof.
  intros H. download_cases H;
    try done;
    try (apply Path_mkdir_Ok in Hmk as [[Hsub _] _]; exact Hsub).
  all: apply Path_mkdir_Ok in Hmk as [[Hsub _] _];
    destruct (open_wb_fresh _ _ _ _ Hex Hop) as (Hfree & -> & _ & _);
    rewrite write_chunks_insert; etrans; [exact Hsub|];
    by apply insert_subseteq.
Qed.

(** After a call that returned normally the destination exists. *)
Lemma download_one_Ok_exists url dest cookie_header (w w' : world Net) :
  download_one session_get url dest cookie_header w = (Ok (), w') →
  Path_exists (w_fs w') dest = true.
Proof.
  intros H. download_cases H; [done|].
  destruct (open_wb_fresh _ _ _ _ Hex Hop) as (Hfree & -> & Hres & Hne).
  rewrite write_chunks_insert. unfold Path_exists.
  erewrite stat_Ok_intro; [done| |].
  - eapply walk_mono; [|exact Hres]. by apply insert_subseteq.
  - apply node_at_lookup; [done|]. apply lookup_insert_eq.
Qed.

Lemma failures_app out1 out2 : failures (out1 ++ out2) = failures out1 ++ failures out2.
Proof. apply omap_app. Qed.

(** [download_one] never prints a failure itself. *)
Lemma download_one_failures url dest cookie_header (w w' : world Net) r :
  download_one session_get url dest cookie_header w = (r, w') →
  failures (w_out w') = failures (w_out w).
Proof.
  intros H. download_cases H; try done;
    rewrite failures_app; simpl; by rewrite app_nil_r.
Qed.

(** *** The loop *)

Lemma run_jobs_total cookie_header jobs (w : world Net) :
  ∃ w', run_jobs session_get cookie_header jobs w = (Ok (), w').
Proof.
  revert w. induction jobs as [|[url dest] jobs IH]; intros w; simpl; [eauto|].
  destruct (download_one _ _ _ _ _) as [[[]|e] w1]; apply IH.
Qed.

Lemma job_results_length cookie_header jobs (w : world Net) :
  length (job_results session_get cookie_header jobs w) = length jobs.
Proof.
  revert w. induction jobs as [|[url dest] jobs IH]; intros w; simpl; [done|].
  destruct (download_one _ _ _ _ _) as [r w1]. simpl. by rewrite IH.
Qed.

Lemma run_jobs_mono cookie_header jobs (w w' : world Net) r :
  run_jobs session_get cookie_header jobs w = (r, w') → w_fs w ⊆ w_fs w'.
Proof.
  revert w. induction jobs as [|[url dest] jobs IH]; intros w; simpl.
  - by intros [= _ <-].
  - destruct (download_one _ _ _ _ _) as [[[]|e] w1] eqn:E; intros H;
      apply download_one_mono in E; apply IH in H; simpl in H; by etrans.
Qed.

(** Every job whose call returned normally has its destination in place
    when the loop ends. *)
Lemma run_jobs_completed cookie_header jobs (w w' : world Net) r :
  run_jobs session_get cookie_header jobs w = (r, w') →
  ∀ i url dest,
    jobs !! i = Some (url, dest) →
    job_results session_get cookie_header jobs w !! i = Some (Ok ()) →
    Path_exists (w_fs w') dest = true.
Proof.
  revert w. induction jobs as [|[url0 dest0] jobs IH]; intros w H i url dest Hi Hr;
    [done|].
  simpl in H, Hr.
  destruct (download_one _ _ _ _ _) as [[[]|e] w1] eqn:E; simpl in H.
  - destruct i as [|i]; simpl in *.
    + injection Hi as <- <-. apply download_one_Ok_exists in E.
      eapply Path_exists_mono; [|exact E]. by eapply run_jobs_mono.
    + by eapply IH.
  - destruct i as [|i]; simpl in *; [done|]. by eapply IH.
Qed.

(** The failures printed by the loop are the jobs whose call raised, each
    with its exception, in job order. *)
Lemma run_jobs_failures cookie_header jobs (w w' : world Net) r :
  run_jobs session_get cookie_header jobs w = (r, w') →
  failures (w_out w')
  = failures (w_out w)
    ++ failed_jobs jobs (job_results session_get cookie_header jobs w).
Proof.
  revert w. induction jobs as [|[url dest] jobs IH]; intros w; simpl.
  - intros [= _ <-]. unfold failed_jobs. simpl. by rewrite app_nil_r.
  - destruct (download_one _ _ _ _ _) as [[[]|e] w1] eqn:E; simpl; intros H;
      apply IH in H; apply download_one_failures in E; rewrite H.
    + unfold failed_jobs. simpl. by rewrite E.
    + simpl. rewrite failures_app, E. unfold failed_jobs. simpl.
      by rewrite <- app_assoc.
Qed.

(** When every destination exists the loop only prints. *)
Lemma run_jobs_all_exist cookie_header jobs (w : world Net) :
  Forall (λ j : string * Path, Path_exists (w_fs w) j.2 = true) jobs →
  ∃ w', run_jobs session_get cookie_header jobs w = (Ok (), w')
        ∧ w_fs w' = w_fs w ∧ w_net w' = w_net w
        ∧ w_requests w' = w_requests w ∧ w_slept w' = w_slept w
        ∧ w_out w' = w_out w ++ (Skipping <$> jobs.*2).
Proof.
  revert w. induction jobs as [|[url dest] jobs IH]; intros w Hall; simpl.
  - exists w. by rewrite app_nil_r.
  - apply Forall_cons in Hall as [Hd Hall]. simpl in Hd.
    rewrite (download_one_skip _ _ _ _ Hd).
    destruct (IH (emit (Skipping dest) w) Hall) as (w' & -> & ? & ? & ? & ? & Ho).
    exists w'. repeat (split; [done|]). rewrite Ho. simpl.
    by rewrite <- app_assoc.
Qed.

Lemma run_jobs_all_ok_exist cookie_header jobs (w w' : world Net) r :
  run_jobs session_get cookie_header jobs w = (r, w') →
  Forall (λ x, x = Ok ()) (job_results session_get cookie_header jobs w) →
  Forall (λ j : string * Path, Path_exists (w_fs w') j.2 = true) jobs.
Proof.
  intros H Hall. apply Forall_lookup. intros i [url dest] Hi. simpl.
  eapply run_jobs_completed; [exact H | exact Hi |].
  destruct (lookup_lt_is_Some_2 (job_results session_get cookie_header jobs w) i)
    as [x Hx].
  { rewrite job_results_length. by eapply lookup_lt_Some. }
  rewrite Forall_lookup in Hall. by rewrite Hx, (Hall i x Hx).
Qed.

Lemma dispatch_run cookie_header concurrency jobs (w : world Net) :
  0 < concurrency →
  ∃ w1, run_jobs session_get cookie_header jobs w = (Ok (), w1)
        ∧ dispatch session_get concurrency cookie_header jobs w
          = (Ok (), emit Done w1).
Proof.
  intros Hc. destruct (run_jobs_total cookie_header jobs w) as [w1 H1].
  exists w1. split; [done|]. unfold dispatch.
  destruct (concurrency <=? 0) eqn:E; [lia|]. by rewrite H1.
Qed.

End DownloadProperties.

(** *** The claims about the downloader and the dispatch loop *)

Section DownloadClaims.

Context {Net : Type} (session_get : request → Net → res response * Net).

(** C1, as amended — Download idempotence via skip-if-exists. A call of
    [download_one] whose destination exists returns normally, sends no
    request and leaves the file system, the server and the clock untouched.
    Consequently a run of the dispatch loop over jobs whose destinations all
    exist sends no request and changes no file; and the destinations all exist
    after a run in which no job failed. *)
Theorem dispatch_rerun_sends_no_request (concurrency : Z)
    (cookie_header : string) (jobs : list (string * Path)) (w : world Net) :
  0 < concurrency →
  (∀ url dest (w0 : world Net),
     Path_exists (w_fs w0) dest = true →
     download_one session_get url dest cookie_header w0
     = (Ok (), emit (Skipping dest) w0))
  ∧ (Forall (λ j : string * Path, Path_exists (w_fs w) j.2 = true) jobs →
     ∃ w', dispatch session_get concurrency cookie_header jobs w = (Ok (), w')
           ∧ w_requests w' = w_requests w
           ∧ w_fs w' = w_fs w
           ∧ w_net w' = w_net w)
  ∧ (∀ w0 : world Net,
       dispatch session_get concurrency cookie_header jobs w0 = (Ok (), w) →
       Forall (λ r, r = Ok ()) (job_results session_get cookie_header jobs w0) →
       Forall (λ j : string * Path, Path_exists (w_fs w) j.2 = true) jobs).
Proof.
  intros Hc. split; [|split].
  - intros url dest w0. apply download_one_skip.
  - intros Hall.
    destruct (run_jobs_all_exist session_get cookie_header jobs w Hall)
      as (w1 & H1 & Hfs & Hnet & Hrq & _ & _).
    destruct (dispatch_run session_get cookie_header concurrency jobs w Hc)
      as (w1' & H1' & ->).
    rewrite H1 in H1'. injection H1' as <-. eexists. split; [done|]. done.
  - intros w0 Hd Hok.
    destruct (dispatch_run session_get cookie_header concurrency jobs w0 Hc)
      as (w1 & H1 & Hd').
    rewrite Hd' in Hd. injection Hd as <-. simpl.
    by eapply run_jobs_all_ok_exist.
Qed.

(** C4 — Partial-failure isolation in the scheduler. With a pool of at
    least one worker the dispatch loop returns normally whatever the jobs do:
    [download_one] is called for every job, the failures it prints are
    exactly the jobs whose call raised, and every job whose call returned has
    its destination in place at the end. *)
Theorem dispatch_isolates_failures (concurrency : Z) (cookie_header : string)
    (jobs : list (string * Path)) (w : world Net) :
  0 < concurrency →
  ∃ w', dispatch session_get concurrency cookie_header jobs w = (Ok (), w')
        ∧ length (job_results session_get cookie_header jobs w) = length jobs
        ∧ failures (w_out w')
          = failures (w_out w)
            ++ failed_jobs jobs (job_results session_get cookie_header jobs w)
        ∧ ∀ i url dest,
            jobs !! i = Some (url, dest) →
            job_results session_get cookie_header jobs w !! i = Some (Ok ()) →
            Path_exists (w_fs w') dest = true.
Proof.
  intros Hc.
  destruct (dispatch_run session_get cookie_header concurrency jobs w Hc)
    as (w1 & H1 & ->).
  eexists. split; [done|]. split; [apply job_results_length|]. split.
  - simpl. rewrite failures_app. simpl. rewrite app_nil_r.
    by eapply run_jobs_failures.
  - intros i url dest Hi Hr. simpl. by eapply run_jobs_completed.
Qed.

(** C10 — The skip path still touches the file system. [download_one] makes
    the parent directories first: when that fails nothing else happens, and
    otherwise the existence test is made on the file system that holds them.
    A call that then skips keeps these directories, sends no request, and
    leaves every file as it was. *)
Theorem download_one_mkdir_before_check (url : string) (dest : Path)
    (cookie_header : string) (w : world Net) :
  (∀ e, Path_mkdir (w_fs w) (Path_parent dest) = Raise e →
        download_one session_get url dest cookie_header w = (Raise e, w))
  ∧ (∀ fs1, Path_mkdir (w_fs w) (Path_parent dest) = Ok fs1 →
       Path_is_dir fs1 (Path_parent dest) = true
       ∧ only_dirs_added (w_fs w) fs1
       ∧ (Path_exists fs1 dest = true →
          download_one session_get url dest cookie_header w
          = (Ok (), emit (Skipping dest) (set_fs fs1 w)))
       ∧ (Path_exists fs1 dest = false →
          ∀ r w', download_one session_get url dest cookie_header w = (r, w') →
                  Skipping dest ∉ drop (length (w_out w)) (w_out w'))).
Proof.
  split.
  - intros e He. unfold download_one. by rewrite He.
  - intros fs1 Hmk. destruct (Path_mkdir_Ok _ _ _ Hmk) as [Hgrow Hdir].
    split; [done|]. split; [done|]. split.
    + intros Hex. unfold download_one. by rewrite Hmk, Hex.
    + intros Hex r w' H. unfold download_one, http_get in H.
      rewrite Hmk, Hex in H. simpl in H.
      destruct (session_get _ _) as [[resp|e] net']; [|simplify_eq; simpl;
        rewrite drop_all; apply not_elem_of_nil].
      destruct (raise_for_status resp) as [[]|e]; [|simplify_eq; simpl;
        rewrite drop_all; apply not_elem_of_nil].
      simpl in H. destruct (open_wb fs1 dest) as [[fs2 q]|e]; [|simplify_eq; simpl;
        rewrite drop_all; apply not_elem_of_nil].
      destruct (stream_breaks resp); simplify_eq; simpl.
      * rewrite drop_all. apply not_elem_of_nil.
      * rewrite drop_app_length. intros Hin.
        apply list_elem_of_singleton in Hin. discriminate.
Qed.

End DownloadClaims.

(** *** The downloader and the dispatch loop on concrete runs *)

(** Three jobs, the second answered 404: the first and third files are
    written, the second job is reported, the loop returns normally. *)
Example dispatch_three_jobs :
  ∃ w', dispatch scripted_get 4 "" three_jobs second_job_fails = (Ok (), w')
        ∧ w_out w'
          = [Downloaded (Path_div out_dir "a.mp4");
             Failed (Path_div out_dir "b.mp4") "https://h/b.mp4" (HTTPError 404);
             Downloaded (Path_div out_dir "c.mp4"); Done]
        ∧ w_fs w' !! (false, ["gopro_media"; "a.mp4"]) = Some (File ["A"%byte])
        ∧ w_fs w' !! (false, ["gopro_media"; "b.mp4"]) = None
        ∧ w_fs w' !! (false, ["gopro_media"; "c.mp4"]) = Some (File ["C"%byte])
        ∧ length (w_requests w') = 3%nat.
Proof. eexists. split; [vm_compute; reflexivity|]. repeat split. Qed.

Lemma dispatch_isolates_failures_witness :
  ∃ w', dispatch scripted_get 4 "" three_jobs second_job_fails = (Ok (), w')
        ∧ length (job_results scripted_get "" three_jobs second_job_fails)
          = length three_jobs
        ∧ failures (w_out w')
          = failures (w_out second_job_fails)
            ++ failed_jobs three_jobs
                 (job_results scripted_get "" three_jobs second_job_fails)
        ∧ ∀ i url dest,
            three_jobs !! i = Some (url, dest) →
            job_results scripted_get "" three_jobs second_job_fails !! i
            = Some (Ok ()) →
            Path_exists (w_fs w') dest = true.
Proof.
  apply (dispatch_isolates_failures scripted_get 4 "" three_jobs second_job_fails).
  reflexivity.
Defined.

(** The claim C1 as stated fails: after a run in which the only job was
    answered 404, a second run over the same job list and output directory
    sends a request again. *)
Lemma rerun_after_failure_sends_request :
  ∃ w1 w2,
    dispatch scripted_get 4 "" one_job always_404 = (Ok (), w1)
    ∧ dispatch scripted_get 4 "" one_job w1 = (Ok (), w2)
    ∧ length (w_requests w1) = 1%nat
    ∧ length (w_requests w2) = 2%nat
    ∧ w_requests w2 ≠ w_requests w1.
Proof.
  eexists. eexists. split; [vm_compute; reflexivity|].
  split; [vm_compute; reflexivity|]. repeat split. discriminate.
Qed.

Lemma dispatch_rerun_sends_no_request_witness :
  (∀ url dest (w0 : world (list (res response))),
     Path_exists (w_fs w0) dest = true →
     download_one scripted_get url dest "" w0 = (Ok (), emit (Skipping dest) w0))
  ∧ (Forall (λ j : string * Path,
               Path_exists
                 (w_fs (dispatch scripted_get 4 "" three_jobs
                          (world0 [file_reply [["A"%byte]]; file_reply [];
                                   file_reply [["C"%byte]]] ∅)).2) j.2 = true)
       three_jobs →
     ∃ w',
       dispatch scripted_get 4 "" three_jobs
         (dispatch scripted_get 4 "" three_jobs
            (world0 [file_reply [["A"%byte]]; file_reply [];
                     file_reply [["C"%byte]]] ∅)).2 = (Ok (), w')
       ∧ w_requests w'
         = w_requests (dispatch scripted_get 4 "" three_jobs
                         (world0 [file_reply [["A"%byte]]; file_reply [];
                                  file_reply [["C"%byte]]] ∅)).2
       ∧ w_fs w'
         = w_fs (dispatch scripted_get 4 "" three_jobs
                   (world0 [file_reply [["A"%byte]]; file_reply [];
                            file_reply [["C"%byte]]] ∅)).2
       ∧ w_net w'
         = w_net (dispatch scripted_get 4 "" three_jobs
                    (world0 [file_reply [["A"%byte]]; file_reply [];
                             file_reply [["C"%byte]]] ∅)).2)
  ∧ (∀ w0 : world (list (res response)),
       dispatch scripted_get 4 "" three_jobs w0
       = (Ok (),
          (dispatch scripted_get 4 "" three_jobs
             (world0 [file_reply [["A"%byte]]; file_reply [];
                      file_reply [["C"%byte]]] ∅)).2) →
       Forall (λ r, r = Ok ()) (job_results scripted_get "" three_jobs w0) →
       Forall (λ j : string * Path,
                 Path_exists
                   (w_fs (dispatch scripted_get 4 "" three_jobs
                            (world0 [file_reply [["A"%byte]]; file_reply [];
                                     file_reply [["C"%byte]]] ∅)).2) j.2 = true)
         three_jobs).
Proof.
  apply (dispatch_rerun_sends_no_request scripted_get 4 "" three_jobs).
  reflexivity.
Defined.

(** A second run after a run without failures: three skips, no request. *)
Example rerun_after_success :
  ∃ w1 w2,
    dispatch scripted_get 4 "" three_jobs
      (world0 [file_reply [["A"%byte]]; file_reply []; file_reply [["C"%byte]]] ∅)
    = (Ok (), w1)
    ∧ dispatch scripted_get 4 "" three_jobs w1 = (Ok (), w2)
    ∧ w_requests w2 = w_requests w1
    ∧ w_fs w2 = w_fs w1
    ∧ drop (length (w_out w1)) (w_out w2)
      = [Skipping (Path_div out_dir "a.mp4"); Skipping (Path_div out_dir "b.mp4");
         Skipping (Path_div out_dir "c.mp4"); Done].
Proof.
  eexists. eexists. split; [vm_compute; reflexivity|].
  split; [vm_compute; reflexivity|]. repeat split.
Qed.

(** A call that skips and yet creates a directory: the destination
    [gopro_media/sub/../file] resolves to the existing [gopro_media/file]
    once [gopro_media/sub] has been made. *)
Example skip_creates_missing_directory :
  Path_exists fs_with_file (Path_div out_dir "sub/../file") = false
  ∧ fs_with_file !! (false, ["gopro_media"; "sub"]) = None
  ∧ ∃ w',
      download_one scripted_get "https://h/file"
        (Path_div out_dir "sub/../file") "" (world0 [] fs_with_file)
      = (Ok (), w')
      ∧ w_out w' = [Skipping (Path_div out_dir "sub/../file")]
      ∧ w_requests w' = []
      ∧ w_fs w' !! (false, ["gopro_media"; "sub"]) = Some Dir
      ∧ w_fs w' !! (false, ["gopro_media"; "file"]) = Some (File ["A"%byte]).
Proof.
  split; [vm_compute; reflexivity|]. split; [vm_compute; reflexivity|].
  eexists. split; [vm_compute; reflexivity|]. repeat split.
Qed.

(** ** Page fetcher *)

Lemma first_list_ext d d' keys :
  (∀ k, k ∈ keys → dict_get d' k = dict_get d k) →
  first_list d' keys = first_list d keys.
Proof.
  induction keys as [|key keys IH]; intros H; simpl; [done|].
  rewrite (H key) by (apply elem_of_cons; by left).
  rewrite IH; [done|]. intros k Hk. apply H, elem_of_cons. by right.
Qed.

(** [first_list] answers with the list under the first key, in key order,
    that maps to a list. *)
Lemma first_list_Some d keys xs :
  first_list d keys = Some xs ↔
  ∃ pre key post,
    keys = pre ++ key :: post
    ∧ dict_get d key = Some (JList xs)
    ∧ ∀ k zs, k ∈ pre → dict_get d k ≠ Some (JList zs).
Proof.
  induction keys as [|key0 keys IH]; simpl.
  - split; [done|]. intros (pre & key & post & H & _). by destruct pre.
  - destruct (dict_get d key0) as [v|] eqn:E.
    + destruct v;
        try (rewrite IH; split;
             [ intros (pre & key & post & -> & Hk & Hpre);
               exists (key0 :: pre), key, post; split; [done|]; split; [done|];
               intros k zs [->|Hin]%elem_of_cons; [congruence | by eapply Hpre]
             | intros ([|k0 pre] & key & post & Heq & Hk & Hpre);
               simplify_eq/=;
               exists pre, key, post; split; [done|]; split; [done|];
               intros k zs Hin; eapply Hpre; apply elem_of_cons; by right ]).
      split.
      * intros [= ->]. exists [], key0, keys. split; [done|]. split; [done|].
        intros k zs Hin. by apply elem_of_nil in Hin.
      * intros ([|k0 pre] & key & post & Heq & Hk & Hpre); simplify_eq/=; [done|].
        exfalso. eapply Hpre; [|exact E]. apply elem_of_cons. by left.
    + rewrite IH. split.
      * intros (pre & key & post & -> & Hk & Hpre).
        exists (key0 :: pre), key, post. split; [done|]. split; [done|].
        intros k zs [->|Hin]%elem_of_cons; [congruence | by eapply Hpre].
      * intros ([|k0 pre] & key & post & Heq & Hk & Hpre); simplify_eq/=.
        exists pre, key, post. split; [done|]. split; [done|].
        intros k zs Hin. eapply Hpre. apply elem_of_cons. by right.
Qed.

Lemma first_list_is_Some d keys key xs :
  key ∈ keys → dict_get d key = Some (JList xs) → is_Some (first_list d keys).
Proof.
  induction keys as [|key0 keys IH]; intros Hin Hk; [by apply elem_of_nil in Hin|].
  simpl. destruct (dict_get d key0) as [[]|] eqn:E; try by eauto.
  all: apply elem_of_cons in Hin as [->|Hin]; [congruence | by apply IH].
Qed.

Lemma raise_for_status_Ok_not_429 resp :
  raise_for_status resp = Ok () → (status_code resp =? 429) = false.
Proof.
  unfold raise_for_status. intros H.
  destruct (status_code resp =? 429) eqn:E; [|done].
  apply Z.eqb_eq in E. rewrite E in H. discriminate.
Qed.

Section FetchProperties.

Context {Net : Type} `{platform : Platform}
  (session_get : request → Net → res response * Net).

(** A reply that is neither rate-limited nor an error: one request, then
    the body is unwrapped. *)
Lemma fetch_page_plain cookie_header page per_page (w : world Net) resp net' body :
  session_get (listing_request cookie_header page per_page) (w_net w)
  = (Ok resp, net') →
  raise_for_status resp = Ok () →
  json_body resp = Some body →
  fetch_page session_get cookie_header page per_page w
  = (unwrap_records (py_or body (JDict [])),
     mkWorld (w_fs w) net'
       (w_requests w ++ [listing_request cookie_header page per_page])
       (w_slept w) (w_out w)).
Proof.
  intros Hget Hst Hbody. unfold fetch_page, http_get. rewrite Hget.
  unfold retry_if_rate_limited.
  rewrite (raise_for_status_Ok_not_429 _ Hst), Hst, Hbody. done.
Qed.

(** Rate-limit retry when the advised wait is absent or an integer that
    [time.sleep] accepts: on a 429 the fetcher prints, sleeps the advised time
    (5 when the header is absent), sends the same request once more, and
    whatever the second reply is decides the result; no third request is
    sent. *)
Theorem fetch_page_retries_once cookie_header page per_page (w : world Net)
    resp net1 wait_for r2 net2 :
  session_get (listing_request cookie_header page per_page) (w_net w)
  = (Ok resp, net1) →
  status_code resp = 429 →
  py_int (default "5" (retry_after resp)) = Ok wait_for →
  time_sleep wait_for = Ok () →
  session_get (listing_request cookie_header page per_page) net1 = (r2, net2) →
  ∃ result,
    fetch_page session_get cookie_header page per_page w
    = (result,
       mkWorld (w_fs w) net2
         (w_requests w ++ [listing_request cookie_header page per_page;
                           listing_request cookie_header page per_page])
         (w_slept w ++ [wait_for]) (w_out w ++ [RateLimited wait_for]))
    ∧ (retry_after resp = None → wait_for = 5)
    ∧ (∀ e, r2 = Raise e → result = Raise e)
    ∧ (∀ resp2, r2 = Ok resp2 →
         (∀ e, raise_for_status resp2 = Raise e → result = Raise e)
         ∧ (raise_for_status resp2 = Ok () →
            (json_body resp2 = None → result = Raise JSONDecodeError)
            ∧ (∀ body, json_body resp2 = Some body →
                 result = unwrap_records (py_or body (JDict []))))).
Proof.
  intros Hget H429 Hint Hpos Hget2.
  unfold fetch_page, http_get. rewrite Hget. simpl.
  unfold retry_if_rate_limited, http_get. rewrite H429. simpl.
  rewrite Hint, Hpos. simpl.
  rewrite Hget2. rewrite <- app_assoc. simpl.
  assert (retry_after resp = None → wait_for = 5) as Hdefault.
  { intros Hn. rewrite Hn in Hint. by injection Hint as <-. }
  destruct r2 as [resp2|e2].
  - destruct (raise_for_status resp2) as [[]|e] eqn:Hst.
    + destruct (json_body resp2) as [body|] eqn:Hb; eexists;
        (split; [done|]); (split; [done|]); (split; [done|]);
        intros resp2' Heq; simplify_eq; (split; [by rewrite Hst|]);
        intros _; rewrite Hb; split; try done; intros body' Heq; by simplify_eq.
    + eexists. split; [done|]. split; [done|]. split; [done|].
      intros resp2' Heq. simplify_eq. rewrite Hst. split; [|done].
      intros e' Heq. by simplify_eq.
  - eexists. split; [done|]. split; [done|].
    split; [intros e' Heq; by simplify_eq | done].
Qed.

(** When the header does not parse as an integer no pause is taken and no
    second request is sent: the exception of [int] leaves [fetch_page]. *)
Lemma fetch_page_bad_retry_after cookie_header page per_page (w : world Net)
    resp net1 e :
  session_get (listing_request cookie_header page per_page) (w_net w)
  = (Ok resp, net1) →
  status_code resp = 429 →
  py_int (default "5" (retry_after resp)) = Raise e →
  fetch_page session_get cookie_header page per_page w
  = (Raise e,
     mkWorld (w_fs w) net1
       (w_requests w ++ [listing_request cookie_header page per_page])
       (w_slept w) (w_out w)).
Proof.
  intros Hget H429 Hint. unfold fetch_page, http_get. rewrite Hget. simpl.
  unfold retry_if_rate_limited. rewrite H429. simpl. by rewrite Hint.
Qed.

End FetchProperties.

(** ** Enumeration loop *)

Lemma listing_requests_S cookie_header per_page page n :
  listing_requests cookie_header per_page page (S n)
  = listing_request cookie_header page per_page
    :: listing_requests cookie_header per_page (page + 1) n.
Proof.
  unfold listing_requests. rewrite <- cons_seq, fmap_cons. f_equal.
  - f_equal. lia.
  - rewrite <- fmap_S_seq, <- list_fmap_compose. apply list_fmap_ext.
    intros i x _. simpl. f_equal. lia.
Qed.

Section EnumerateProperties.

Context {Net : Type} `{platform : Platform}
  (session_get : request → Net → res response * Net).
Context (urlparse_path : string → res string) (py_repr : json → string)
  (clock : nat → nat → Z).

Lemma jobs_of_app out k xs ys :
  jobs_of urlparse_path py_repr clock out k (xs ++ ys)
  = jobs_of urlparse_path py_repr clock out k xs
    ++ jobs_of urlparse_path py_repr clock out (k + length xs) ys.
Proof.
  revert k. induction xs as [|x xs IH]; intros k; simpl.
  - by rewrite Nat.add_0_r.
  - rewrite IH, <- app_assoc. do 3 f_equal. lia.
Qed.

(** The loop body on a record that extracts without raising: the job list
    grows by the record's first job, and only the printed output changes. *)
Lemma enqueue_Ok out k media jobs (w : world Net) :
  is_Ok (extract_downloads_of urlparse_path py_repr clock k media) = true →
  ∃ w',
    enqueue urlparse_path py_repr clock out k media jobs w
    = (Ok (jobs ++ option_list (first_job urlparse_path py_repr clock out k media)),
       w')
    ∧ w_fs w' = w_fs w ∧ w_net w' = w_net w
    ∧ w_requests w' = w_requests w ∧ w_slept w' = w_slept w.
Proof.
  intros H. unfold enqueue, first_job.
  destruct (extract_downloads_of _ _ _ _ _) as [[|[url fname] l]|e]; [| |done].
  - eexists. simpl. by rewrite app_nil_r.
  - eexists. simpl. done.
Qed.

Lemma enqueue_page_Ok out k media_page jobs (w : world Net) :
  (∀ i m, media_page !! i = Some m →
     is_Ok (extract_downloads_of urlparse_path py_repr clock (k + i) m) = true) →
  ∃ w',
    enqueue_page urlparse_path py_repr clock out k media_page jobs w
    = (Ok (jobs ++ jobs_of urlparse_path py_repr clock out k media_page), w')
    ∧ w_fs w' = w_fs w ∧ w_net w' = w_net w
    ∧ w_requests w' = w_requests w ∧ w_slept w' = w_slept w.
Proof.
  revert k jobs w. induction media_page as [|m rest IH]; intros k jobs w Hall; simpl.
  - exists w. by rewrite app_nil_r.
  - destruct (enqueue_Ok out k m jobs w) as (w1 & -> & F1 & N1 & R1 & S1).
    { specialize (Hall 0%nat m eq_refl). by rewrite Nat.add_0_r in Hall. }
    destruct (IH (S k)
                (jobs ++ option_list (first_job urlparse_path py_repr clock out k m))
                w1)
      as (w2 & -> & F2 & N2 & R2 & S2).
    { intros i m' Hi. specialize (Hall (S i) m' Hi).
      by replace (S k + i)%nat with (k + S i)%nat by lia. }
    exists w2. rewrite <- app_assoc. repeat split; congruence.
Qed.

(** Pagination over a server that answers [pages] and then an empty page,
    from the loop state ([page], [k], [jobs]). *)
Lemma enumerate_from max_pages per_page cookie_header out pages :
  (∀ p, cap_reached max_pages p = false) →
  ∀ fuel page k jobs (w : world Net) net_end,
    Forall (λ pg, pg ≠ []) pages →
    serves_pages session_get cookie_header per_page page (w_net w)
      (pages ++ [[]]) net_end →
    (∀ i m, concat pages !! i = Some m →
       is_Ok (extract_downloads_of urlparse_path py_repr clock (k + i) m) = true) →
    (length pages < fuel)%nat →
    ∃ w',
      enumerate session_get urlparse_path py_repr clock fuel max_pages per_page
        cookie_header out page k jobs w
      = Some (Enumerated
                (jobs ++ jobs_of urlparse_path py_repr clock out k (concat pages)),
              w')
      ∧ w_requests w'
        = w_requests w
          ++ listing_requests cookie_header per_page page (S (length pages))
      ∧ w_net w' = net_end ∧ w_fs w' = w_fs w ∧ w_slept w' = w_slept w.
Proof.
  intros Hcap. induction pages as [|pg rest IH];
    intros fuel page k jobs w net_end Hne Hserve Hext Hfuel;
    (destruct fuel as [|fuel]; [simpl in Hfuel; lia|]);
    simpl in Hserve; destruct Hserve as (net' & (resp & body & Hget & Hst & Hb & Hun) & Hrest);
    simpl; rewrite Hcap, (fetch_page_plain _ _ _ _ _ _ _ _ Hget Hst Hb), Hun.
  - simpl in Hrest. subst net_end. eexists. split; [by rewrite app_nil_r|].
    unfold listing_requests. simpl. rewrite Z.add_0_r. done.
  - apply Forall_cons in Hne as [Hpg Hne].
    destruct pg as [|m pg]; [done|].
    destruct (enqueue_page_Ok out k (m :: pg) jobs
                (emit (Fetched page (length (m :: pg)))
                   (mkWorld (w_fs w) net'
                      (w_requests w ++ [listing_request cookie_header page per_page])
                      (w_slept w) (w_out w))))
      as (w2 & Henq & F2 & N2 & R2 & S2).
    { intros i m' Hi. apply Hext. rewrite concat_cons. by apply lookup_app_l_Some. }
    rewrite Henq. simpl in F2, N2, R2, S2.
    destruct (IH fuel (page + 1) (k + length (m :: pg))%nat
                (jobs ++ jobs_of urlparse_path py_repr clock out k (m :: pg))
                w2 net_end)
      as (w3 & -> & R3 & N3 & F3 & S3).
    + done.
    + by rewrite N2.
    + intros i m' Hi. replace (k + length (m :: pg) + i)%nat
        with (k + (length (m :: pg) + i))%nat by lia.
      apply Hext. rewrite concat_cons, lookup_app_r by lia.
      by replace (length (m :: pg) + i - length (m :: pg))%nat with i by lia.
    + simpl in Hfuel. lia.
    + exists w3. split.
      * by rewrite jobs_of_app, app_assoc.
      * rewrite R3, R2, N3, F3, F2, S3, S2.
        rewrite (listing_requests_S _ _ page (S (length rest))).
        simpl length. by rewrite <- app_assoc.
Qed.

End EnumerateProperties.

(** *** The claims about the page fetcher and the enumeration loop *)

Section FetchClaims.

Context {Net : Type} `{platform : Platform}
  (session_get : request → Net → res response * Net).
Context (urlparse_path : string → res string) (py_repr : json → string)
  (clock : nat → nat → Z).

(** C9 — Top-level keys shadow the wrapped response. When the body of a reply
    maps one of the keys "media", "data", "results", "items" to a list at top
    level, [fetch_page] returns the list under the first such key in that
    order, whatever the body holds under "response" or any other key; and
    when that list is empty the enumeration loop stops there. *)
Theorem top_level_list_shadows_response (cookie_header : string)
    (page per_page : Z) (w : world Net) (resp : response) (net' : Net)
    (d : list (string * json)) (key : string) (xs : list json) :
  key ∈ list_keys →
  dict_get d key = Some (JList xs) →
  session_get (listing_request cookie_header page per_page) (w_net w)
  = (Ok resp, net') →
  raise_for_status resp = Ok () →
  json_body resp = Some (JDict d) →
  ∃ ys pre key' post,
    list_keys = pre ++ key' :: post
    ∧ dict_get d key' = Some (JList ys)
    ∧ (∀ k zs, k ∈ pre → dict_get d k ≠ Some (JList zs))
    ∧ (∀ d', (∀ k, k ∈ list_keys → dict_get d' k = dict_get d k) →
             unwrap_records (JDict d') = Ok ys)
    ∧ fetch_page session_get cookie_header page per_page w
      = (Ok ys,
         mkWorld (w_fs w) net'
           (w_requests w ++ [listing_request cookie_header page per_page])
           (w_slept w) (w_out w))
    ∧ (ys = [] →
       ∀ fuel max_pages out k jobs,
         cap_reached max_pages page = false →
         enumerate session_get urlparse_path py_repr clock (S fuel) max_pages
           per_page cookie_header out page k jobs w
         = Some (Enumerated jobs,
                 mkWorld (w_fs w) net'
                   (w_requests w ++ [listing_request cookie_header page per_page])
                   (w_slept w) (w_out w))).
Proof.
  intros Hkey Hd Hget Hst Hbody.
  destruct (first_list_is_Some d list_keys key xs Hkey Hd) as [ys Hys].
  destruct (proj1 (first_list_Some d list_keys ys) Hys)
    as (pre & key' & post & Hk & Hdk & Hpre).
  assert (∀ d', (∀ k, k ∈ list_keys → dict_get d' k = dict_get d k) →
                unwrap_records (JDict d') = Ok ys) as Hun.
  { intros d' Hd'. unfold unwrap_records.
    by rewrite (first_list_ext d d' list_keys Hd'), Hys. }
  assert (fetch_page session_get cookie_header page per_page w
          = (Ok ys,
             mkWorld (w_fs w) net'
               (w_requests w ++ [listing_request cookie_header page per_page])
               (w_slept w) (w_out w))) as Hfetch.
  { rewrite (fetch_page_plain _ _ _ _ _ _ _ _ Hget Hst Hbody).
    assert (py_or (JDict d) (JDict []) = JDict d) as ->
      by (unfold py_or; destruct d; [discriminate | done]).
    rewrite (Hun d); [done | auto]. }
  exists ys, pre, key', post. repeat (split; [done|]).
  intros -> fuel max_pages out k jobs Hcap. simpl. by rewrite Hcap, Hfetch.
Qed.

(** Pagination termination for records that extract without raising. With
    no page cap, over a server that answers the listing requests for pages
    1, 2, ... with N non-empty pages and then an empty one, the loop ends by
    its [break] after exactly the N + 1 listing requests, having queued the
    first job of every record of the N pages, in order. *)
Theorem enumerate_pages (max_pages : option Z) (per_page : Z)
    (cookie_header : string) (out : Path) (pages : list (list json))
    (fuel : nat) (w : world Net) (net_end : Net) :
  max_pages = None ∨ max_pages = Some 0 →
  Forall (λ pg, pg ≠ []) pages →
  serves_pages session_get cookie_header per_page 1 (w_net w)
    (pages ++ [[]]) net_end →
  (∀ i m, concat pages !! i = Some m →
     is_Ok (extract_downloads_of urlparse_path py_repr clock i m) = true) →
  (length pages < fuel)%nat →
  ∃ w',
    enumerate session_get urlparse_path py_repr clock fuel max_pages per_page
      cookie_header out 1 0 [] w
    = Some (Enumerated (jobs_of urlparse_path py_repr clock out 0 (concat pages)),
            w')
    ∧ w_requests w'
      = w_requests w ++ listing_requests cookie_header per_page 1 (S (length pages))
    ∧ w_net w' = net_end ∧ w_fs w' = w_fs w ∧ w_slept w' = w_slept w.
Proof.
  intros Hcap Hne Hserve Hext Hfuel.
  apply (enumerate_from session_get urlparse_path py_repr clock max_pages
           per_page cookie_header out pages); try done.
  intros p. by destruct Hcap as [-> | ->].
Qed.

End FetchClaims.

(** C2 — Pagination termination fails on the code when a page holds a record
    [extract_downloads] raises on: over a server that answers one non-empty
    page and then an empty page, the loop is left by [AttributeError] while
    the first page is processed, after one listing request instead of two. *)
Theorem enumerate_crashes_on_malformed_record (fuel : nat) :
  ∃ w',
    enumerate scripted_get urlparse_path_cpython repr_opaque (λ _ _, 1700000000)
      (S fuel) None 100 "" out_dir 1 0 [] bad_page_then_empty
    = Some (Crashed AttributeError, w')
    ∧ length (w_requests w') = 1%nat
    ∧ w_net w' = [page_reply []]
    ∧ w_out w' = [Fetched 1 1].
Proof. eexists. split; [vm_compute; reflexivity|]. repeat split. Qed.

(** C3 — Rate-limit retry policy fails on the code when the server advises
    the wait as an HTTP date: [int] raises [ValueError], which leaves
    [fetch_page] without any pause and without a second request, although the
    second reply would have been a page. *)
Theorem fetch_page_http_date_retry_after :
  ∃ w',
    fetch_page scripted_get "" 1 100 rate_limited_until_date
    = (Raise ValueError, w')
    ∧ w_slept w' = []
    ∧ length (w_requests w') = 1%nat
    ∧ w_net w' = [page_reply [record_a]].
Proof. eexists. split; [vm_compute; reflexivity|]. repeat split. Qed.

(** *** The page fetcher and the loop on concrete servers *)

Example enumerate_two_pages :
  ∃ w',
    enumerate scripted_get urlparse_path_cpython repr_opaque (λ _ _, 1700000000)
      10 None 100 "" out_dir 1 0 [] two_pages_then_empty
    = Some (Enumerated
              [("https://h/a.mp4", Path_div out_dir "a.mp4");
               ("https://h/b.mp4", Path_div out_dir "b.mp4");
               ("https://h/c.mp4", Path_div out_dir "c.mp4")],
            w')
    ∧ length (w_requests w') = 3%nat
    ∧ w_out w' = [Fetched 1 2; Fetched 2 1].
Proof. eexists. split; [vm_compute; reflexivity|]. repeat split. Qed.

Example fetch_page_rate_limited_once :
  ∃ w',
    fetch_page scripted_get "" 1 100 rate_limited_once = (Ok [record_a], w')
    ∧ w_slept w' = [2]
    ∧ w_out w' = [RateLimited 2]
    ∧ length (w_requests w') = 2%nat.
Proof. eexists. split; [vm_compute; reflexivity|]. repeat split. Qed.

Example fetch_page_rate_limited_twice :
  ∃ w',
    fetch_page scripted_get "" 1 100 rate_limited_twice
    = (Raise (HTTPError 429), w')
    ∧ w_slept w' = [5]
    ∧ length (w_requests w') = 2%nat
    ∧ w_net w' = [page_reply [record_a]].
Proof. eexists. split; [vm_compute; reflexivity|]. repeat split. Qed.

Example enumerate_shadowed_reply :
  ∃ w',
    enumerate scripted_get urlparse_path_cpython repr_opaque (λ _ _, 1700000000)
      10 None 100 "" out_dir 1 0 [] shadowed_reply
    = Some (Enumerated [], w')
    ∧ length (w_requests w') = 1%nat.
Proof. eexists. split; [vm_compute; reflexivity|]. repeat split. Qed.

Lemma top_level_list_shadows_response_witness :
  ∃ ys pre key' post,
    list_keys = pre ++ key' :: post
    ∧ dict_get shadowed_body key' = Some (JList ys)
    ∧ (∀ k zs, k ∈ pre → dict_get shadowed_body k ≠ Some (JList zs))
    ∧ (∀ d', (∀ k, k ∈ list_keys → dict_get d' k = dict_get shadowed_body k) →
             unwrap_records (JDict d') = Ok ys)
    ∧ fetch_page scripted_get "" 1 100 shadowed_reply
      = (Ok ys,
         mkWorld (w_fs shadowed_reply) []
           (w_requests shadowed_reply ++ [listing_request "" 1 100])
           (w_slept shadowed_reply) (w_out shadowed_reply))
    ∧ (ys = [] →
       ∀ fuel max_pages out k jobs,
         cap_reached max_pages 1 = false →
         enumerate scripted_get urlparse_path_cpython repr_opaque
           (λ _ _, 1700000000) (S fuel) max_pages 100 "" out 1 k jobs
           shadowed_reply
         = Some (Enumerated jobs,
                 mkWorld (w_fs shadowed_reply) []
                   (w_requests shadowed_reply ++ [listing_request "" 1 100])
                   (w_slept shadowed_reply) (w_out shadowed_reply))).
Proof.
  apply (top_level_list_shadows_response scripted_get urlparse_path_cpython
           repr_opaque (λ _ _, 1700000000) "" 1 100 shadowed_reply
           (mkResponse 200 None (Some (JDict shadowed_body)) [] false) []
           shadowed_body "media" []).
  - apply elem_of_cons. by left.
  - reflexivity.
  - reflexivity.
  - reflexivity.
  - reflexivity.
Defined.

Lemma enumerate_pages_witness :
  ∃ w',
    enumerate scripted_get urlparse_path_cpython repr_opaque (λ _ _, 1700000000)
      10 None 100 "" out_dir 1 0 [] two_pages_then_empty
    = Some (Enumerated
              (jobs_of urlparse_path_cpython repr_opaque (λ _ _, 1700000000)
                 out_dir 0 (concat [[record_a; record_b]; [record_c]])),
            w')
    ∧ w_requests w'
      = w_requests two_pages_then_empty
        ++ listing_requests "" 100 1 (S (length [[record_a; record_b]; [record_c]]))
    ∧ w_net w' = []
    ∧ w_fs w' = w_fs two_pages_then_empty
    ∧ w_slept w' = w_slept two_pages_then_empty.
Proof.
  apply (enumerate_pages scripted_get urlparse_path_cpython repr_opaque
           (λ _ _, 1700000000) None 100 "" out_dir
           [[record_a; record_b]; [record_c]] 10 two_pages_then_empty []).
  - by left.
  - repeat constructor; discriminate.
  - simpl.
    eexists. split; [eexists; eexists; repeat split; reflexivity|].
    eexists. split; [eexists; eexists; repeat split; reflexivity|].
    eexists. split; [eexists; eexists; repeat split; reflexivity|].
    reflexivity.
  - intros [|[|[|i]]] m Hi; simpl in Hi; simplify_eq; reflexivity.
  - simpl. lia.
Defined.

Lemma fetch_page_retries_once_witness :
  ∃ result,
    fetch_page scripted_get "" 1 100 rate_limited_once
    = (result,
       mkWorld (w_fs rate_limited_once) []
         (w_requests rate_limited_once
            ++ [listing_request "" 1 100; listing_request "" 1 100])
         (w_slept rate_limited_once ++ [2])
         (w_out rate_limited_once ++ [RateLimited 2]))
    ∧ (retry_after (mkResponse 429 (Some "2") (Some JNull) [] false) = None → 2 = 5)
    ∧ (∀ e, page_reply [record_a] = Raise e → result = Raise e)
    ∧ (∀ resp2, page_reply [record_a] = Ok resp2 →
         (∀ e, raise_for_status resp2 = Raise e → result = Raise e)
         ∧ (raise_for_status resp2 = Ok () →
            (json_body resp2 = None → result = Raise JSONDecodeError)
            ∧ (∀ body, json_body resp2 = Some body →
                 result = unwrap_records (py_or body (JDict []))))).
Proof.
  apply (fetch_page_retries_once scripted_get "" 1 100 rate_limited_once
           (mkResponse 429 (Some "2") (Some JNull) [] false)
           [page_reply [record_a]] 2 (page_reply [record_a]) []).
  - reflexivity.
  - reflexivity.
  - reflexivity.
  - reflexivity.
  - reflexivity.
Defined.

(** * Further properties of the code *)

(** ** File system: resolved locations sit below directories *)

(** Every proper prefix of the location [cur] is a directory. *)
Definition below_dirs (fs : gmap (bool * list string) node) (a : bool)
  (cur : list string) : Prop :=
  ∀ n, (n < length cur)%nat → node_at fs a (take n cur) = Some Dir.

Lemma below_dirs_nil fs a : below_dirs fs a [].
Proof. intros n Hn. simpl in Hn. lia. Qed.

Lemma below_dirs_snoc fs a cur c :
  below_dirs fs a cur → node_at fs a cur = Some Dir → below_dirs fs a (cur ++ [c]).
Proof.
  intros Hb Hd n Hn. rewrite length_app in Hn. simpl in Hn.
  destruct (decide (n < length cur)%nat) as [Hlt|Hge].
  - rewrite take_app_le by lia. by apply Hb.
  - assert (n = length cur) as -> by lia.
    by rewrite take_app_length.
Qed.

Lemma removelast_take {A} (l : list A) : removelast l = take (length l - 1) l.
Proof.
  induction l as [|x l IH]; [done|]. destruct l as [|y l]; [done|].
  change (removelast (x :: y :: l)) with (x :: removelast (y :: l)).
  rewrite IH. simpl. by rewrite Nat.sub_0_r.
Qed.

Lemma below_dirs_removelast fs a cur :
  below_dirs fs a cur → below_dirs fs a (removelast cur).
Proof.
  intros Hb n Hn. rewrite removelast_take in *. rewrite length_take in Hn.
  rewrite take_take. replace (n `min` (length cur - 1))%nat with n by lia.
  apply Hb. lia.
Qed.

Lemma below_dirs_parent_dir fs a cur :
  below_dirs fs a cur → node_at fs a (removelast cur) = Some Dir.
Proof.
  intros Hb. destruct cur as [|x cur] using rev_ind; [done|].
  rewrite removelast_last. specialize (Hb (length cur)).
  rewrite take_app_length in Hb. apply Hb. rewrite length_app. simpl. lia.
Qed.

Lemma walk_below_dirs fs a cur cs q :
  below_dirs fs a cur → walk fs a cur cs = Ok q → below_dirs fs a q.
Proof.
  revert cur. induction cs as [|c cs IH]; intros cur Hb; simpl.
  - by intros [= <-].
  - destruct (node_at fs a cur) as [[|]|] eqn:Hn; try done.
    apply IH. destruct (String.eqb c "..").
    + by apply below_dirs_removelast.
    + by apply below_dirs_snoc.
Qed.

(** Where the parent is a directory and the path does not exist, [open]
    creates the file. *)
Lemma open_wb_succeeds fs p :
  Path_is_dir fs (Path_parent p) = true → Path_exists fs p = false →
  ∃ q, open_wb fs p = Ok (<[(absolute p, q) := File []]> fs, q).
Proof.
  intros (dir & Hdir & Hn)%Path_is_dir_stat%stat_Ok_inv Hex.
  simpl in Hn. unfold open_wb.
  destruct (last (parts p)) as [c|] eqn:Hl.
  - apply last_Some in Hl as [init Hp]. rewrite Hdir. res_simpl. rewrite Hn.
    destruct (String.eqb c "..") eqn:Hc.
    + exfalso. unfold Path_exists in Hex.
      rewrite (stat_Ok_intro fs p (removelast dir) Dir) in Hex; [done| |].
      * apply (resolve_snoc _ _ init c); [done|]. exists dir. by rewrite Hc.
      * apply below_dirs_parent_dir.
        eapply walk_below_dirs; [apply below_dirs_nil | exact Hdir].
    + destruct (node_at fs (absolute p) (dir ++ [c])) as [n|] eqn:Hq; [|eauto].
      exfalso. unfold Path_exists in Hex.
      rewrite (stat_Ok_intro fs p (dir ++ [c]) n) in Hex; [done| |done].
      apply (resolve_snoc _ _ init c); [done|]. exists dir. by rewrite Hc.
  - exfalso. apply last_None in Hl. unfold Path_exists in Hex.
    rewrite (stat_Ok_intro fs p [] Dir) in Hex; [done| |done].
    unfold resolve. by rewrite Hl.
Qed.

(** ** Downloader: what a call writes, sends and leaves alone *)

(** The request [download_one] sends for a job. *)
Definition download_request (url cookie_header : string) : request :=
  mkRequest url [] (with_bearer cookie_header [("Cookie", cookie_header)]) true 120.

Section DownloadExtras.

Context {Net : Type} (session_get : request → Net → res response * Net).

(** Streaming a reply to disk, for a destination whose names and length the
    operating system accepts, on a file system that grants every access. When
    the destination does not exist once its parent directories are made and
    the server answers the request with a success status, [download_one]
    sends that one request and leaves at the destination a file holding the
    concatenation of the chunks received, also when the stream breaks after
    them, in which case the call raises; either way the next call for this
    destination skips. *)
Theorem download_one_streams_body (url : string) (dest : Path)
    (cookie_header : string) (w : world Net) fs1 resp net' :
  os_accepts dest = true →
  Path_mkdir (w_fs w) (Path_parent dest) = Ok fs1 →
  Path_exists fs1 dest = false →
  session_get (download_request url cookie_header) (w_net w) = (Ok resp, net') →
  raise_for_status resp = Ok () →
  ∃ w' q,
    download_one session_get url dest cookie_header w
    = ((if stream_breaks resp then Raise RequestException else Ok ()), w')
    ∧ fs1 !! (absolute dest, q) = None
    ∧ w_fs w' = <[(absolute dest, q) := File (concat (chunks resp))]> fs1
    ∧ stat (w_fs w') dest = Ok (File (concat (chunks resp)))
    ∧ w_requests w' = w_requests w ++ [download_request url cookie_header]
    ∧ w_net w' = net'
    ∧ download_one session_get url dest cookie_header w'
      = (Ok (), emit (Skipping dest) w').
Proof.
  intros _ Hmk Hex Hget Hst.
  destruct (Path_mkdir_Ok _ _ _ Hmk) as [_ Hdir].
  destruct (open_wb_succeeds fs1 dest Hdir Hex) as [q Hop].
  destruct (open_wb_fresh _ _ _ _ Hex Hop) as (Hfree & _ & Hres & Hne).
  assert (stat (<[(absolute dest, q) := File (concat (chunks resp))]> fs1) dest
          = Ok (File (concat (chunks resp)))) as Hstat.
  { apply (stat_Ok_intro _ _ q).
    - eapply walk_mono; [|exact Hres]. by apply insert_subseteq.
    - apply node_at_lookup; [done|]. apply lookup_insert_eq. }
  unfold download_one, http_get. rewrite Hmk, Hex. simpl.
  fold (download_request url cookie_header). rewrite Hget, Hst. simpl.
  rewrite Hop, write_chunks_insert. simpl.
  destruct (stream_breaks resp); eexists; exists q;
    (split; [done|]); (split; [done|]); (split; [done|]);
    (split; [done|]); (split; [done|]); (split; [done|]);
    apply download_one_skip; unfold Path_exists; simpl; by rewrite Hstat.
Qed.

(** The frame of a call. Whatever the server does, [download_one] keeps
    every entry of the file system as it was (it never overwrites or removes
    a file), adds at most directories and one file, sends at most one request,
    which is the streamed request for the job's URL, and never sleeps. *)
Theorem download_one_frame (url : string) (dest : Path) (cookie_header : string)
    (w w' : world Net) (r : res unit) :
  download_one session_get url dest cookie_header w = (r, w') →
  w_fs w ⊆ w_fs w'
  ∧ (only_dirs_added (w_fs w) (w_fs w')
     ∨ ∃ fs1 q content,
         only_dirs_added (w_fs w) fs1
         ∧ fs1 !! (absolute dest, q) = None
         ∧ resolve fs1 dest = Ok q
         ∧ w_fs w' = <[(absolute dest, q) := File content]> fs1)
  ∧ (w_requests w' = w_requests w
     ∨ w_requests w' = w_requests w ++ [download_request url cookie_header])
  ∧ w_slept w' = w_slept w
  ∧ (w_requests w' = w_requests w → w_net w' = w_net w).
Proof.
  intros H. split; [by eapply download_one_mono|].
  unfold download_one, http_get in H.
  destruct (Path_mkdir _ _) as [fs1|e] eqn:Hmk.
  2:{ simplify_eq. split; [left; apply only_dirs_added_refl|]. auto. }
  destruct (Path_mkdir_Ok _ _ _ Hmk) as [Hgrow Hdir].
  destruct (Path_exists fs1 dest) eqn:Hex.
  { simplify_eq. simpl. split; [by left|]. auto. }
  simpl in H. fold (download_request url cookie_header) in H.
  destruct (session_get _ _) as [[resp|e] net'] eqn:Hget.
  2:{ simplify_eq. simpl. split; [by left|]. split; [by right|]. split; [done|].
      intros Heq. apply (f_equal length) in Heq. rewrite length_app in Heq.
      simpl in Heq. lia. }
  assert (∀ l : list request, l ++ [download_request url cookie_header] = l → False)
    as Habs.
  { intros l Heq. apply (f_equal length) in Heq. rewrite length_app in Heq.
    simpl in Heq. lia. }
  destruct (raise_for_status resp) as [[]|e] eqn:Hst.
  2:{ simplify_eq. simpl. split; [by left|]. split; [by right|]. split; [done|].
      intros Heq. by apply Habs in Heq. }
  simpl in H. destruct (open_wb fs1 dest) as [[fs2 q]|e] eqn:Hop.
  2:{ simplify_eq. simpl. split; [by left|]. split; [by right|]. split; [done|].
      intros Heq. by apply Habs in Heq. }
  destruct (open_wb_fresh _ _ _ _ Hex Hop) as (Hfree & -> & Hres & Hne).
  rewrite write_chunks_insert in H.
  destruct (stream_breaks resp); simplify_eq; simpl;
    (split; [right; exists fs1, q, ([] ++ concat (chunks resp)); done|]);
    (split; [by right|]); (split; [done|]); intros Heq; by apply Habs in Heq.
Qed.

(** The dispatch loop sends at most one request per job, each the streamed
    request for the URL of one of the jobs, keeps every file that was there,
    and never sleeps: a download is never retried. *)
Theorem dispatch_request_bound (concurrency : Z) (cookie_header : string)
    (jobs : list (string * Path)) (w w' : world Net) (r : res unit) :
  dispatch session_get concurrency cookie_header jobs w = (r, w') →
  ∃ sent,
    w_requests w' = w_requests w ++ sent
    ∧ (length sent ≤ length jobs)%nat
    ∧ Forall (λ rq, ∃ url dest, (url, dest) ∈ jobs
                                ∧ rq = download_request url cookie_header) sent
    ∧ w_fs w ⊆ w_fs w'
    ∧ w_slept w' = w_slept w.
Proof.
  assert (∀ jobs (w w' : world Net) r,
            run_jobs session_get cookie_header jobs w = (r, w') →
            ∃ sent,
              w_requests w' = w_requests w ++ sent
              ∧ (length sent ≤ length jobs)%nat
              ∧ Forall (λ rq, ∃ url dest, (url, dest) ∈ jobs
                                ∧ rq = download_request url cookie_header) sent
              ∧ w_fs w ⊆ w_fs w'
              ∧ w_slept w' = w_slept w) as Hrun.
  { clear. intros jobs. induction jobs as [|[url dest] jobs IH]; intros w w' r H.
    - simpl in H. simplify_eq. exists []. by rewrite app_nil_r.
    - simpl in H.
      destruct (download_one _ _ _ _ _) as [r1 w1] eqn:Hd.
      destruct (download_one_frame _ _ _ _ _ _ Hd) as (Hsub & _ & Hrq & Hsl & _).
      assert (∃ w1', run_jobs session_get cookie_header jobs w1' = (r, w')
                     ∧ w_requests w1' = w_requests w1 ∧ w_fs w1' = w_fs w1
                     ∧ w_slept w1' = w_slept w1) as (w1' & Hrest & E1 & E2 & E3).
      { destruct r1 as [[]|e]; [by exists w1|]. simpl in H. by eexists. }
      destruct (IH _ _ _ Hrest) as (sent & Hs & Hlen & Hall & Hsub' & Hsl').
      assert (Forall (λ rq, ∃ url0 dest0, (url0, dest0) ∈ (url, dest) :: jobs
                              ∧ rq = download_request url0 cookie_header) sent)
        as Hall'.
      { eapply Forall_impl; [exact Hall|]. intros rq (u & d & Hin & ->).
        exists u, d. split; [|done]. apply elem_of_cons. by right. }
      destruct Hrq as [Hrq|Hrq].
      + exists sent. rewrite Hs, E1, Hrq. split; [done|]. split; [simpl; lia|].
        split; [done|]. split; [etrans; [exact Hsub|]; by rewrite <- E2|].
        congruence.
      + exists (download_request url cookie_header :: sent).
        rewrite Hs, E1, Hrq, <- app_assoc. split; [done|].
        split; [simpl; lia|]. split.
        * constructor; [|done]. exists url, dest. split; [|done].
          apply elem_of_cons. by left.
        * split; [etrans; [exact Hsub|]; by rewrite <- E2|]. congruence. }
  intros H. unfold dispatch in H. destruct (concurrency <=? 0).
  - simplify_eq. exists []. rewrite app_nil_r. repeat split; try done.
    simpl. lia.
  - destruct (run_jobs _ _ _ _) as [[[]|e] w1] eqn:Hr; simplify_eq;
      destruct (Hrun _ _ _ _ Hr) as (sent & ? & ? & ? & ? & ?); by exists sent.
Qed.

End DownloadExtras.

Lemma download_one_streams_body_witness :
  ∃ w' q,
    download_one scripted_get "https://h/a.mp4" (Path_div out_dir "a.mp4") ""
      (world0 [file_reply [["A"%byte]; []; ["B"%byte]]] ∅)
    = ((if stream_breaks (mkResponse 200 None None [["A"%byte]; []; ["B"%byte]] false)
        then Raise RequestException else Ok ()), w')
    ∧ ({[ (false, ["gopro_media"]) := Dir ]} : gmap (bool * list string) node)
        !! (absolute (Path_div out_dir "a.mp4"), q) = None
    ∧ w_fs w'
      = <[(absolute (Path_div out_dir "a.mp4"), q)
          := File (concat
                     (chunks (mkResponse 200 None None
                                [["A"%byte]; []; ["B"%byte]] false)))]>
          ({[ (false, ["gopro_media"]) := Dir ]} : gmap (bool * list string) node)
    ∧ stat (w_fs w') (Path_div out_dir "a.mp4")
      = Ok (File (concat
                    (chunks (mkResponse 200 None None
                               [["A"%byte]; []; ["B"%byte]] false))))
    ∧ w_requests w'
      = w_requests (world0 [file_reply [["A"%byte]; []; ["B"%byte]]] ∅)
        ++ [download_request "https://h/a.mp4" ""]
    ∧ w_net w' = []
    ∧ download_one scripted_get "https://h/a.mp4" (Path_div out_dir "a.mp4") "" w'
      = (Ok (), emit (Skipping (Path_div out_dir "a.mp4")) w').
Proof.
  apply (download_one_streams_body scripted_get "https://h/a.mp4"
           (Path_div out_dir "a.mp4") ""
           (world0 [file_reply [["A"%byte]; []; ["B"%byte]]] ∅)
           {[ (false, ["gopro_media"]) := Dir ]}
           (mkResponse 200 None None [["A"%byte]; []; ["B"%byte]] false) []).
  - reflexivity.
  - vm_compute. reflexivity.
  - vm_compute. reflexivity.
  - reflexivity.
  - reflexivity.
Defined.

Lemma download_one_frame_witness :
  w_fs second_job_fails
  ⊆ w_fs (download_one scripted_get "https://h/a.mp4" (Path_div out_dir "a.mp4")
            "" second_job_fails).2
  ∧ (only_dirs_added (w_fs second_job_fails)
       (w_fs (download_one scripted_get "https://h/a.mp4"
                (Path_div out_dir "a.mp4") "" second_job_fails).2)
     ∨ ∃ fs1 q content,
         only_dirs_added (w_fs second_job_fails) fs1
         ∧ fs1 !! (absolute (Path_div out_dir "a.mp4"), q) = None
         ∧ resolve fs1 (Path_div out_dir "a.mp4") = Ok q
         ∧ w_fs (download_one scripted_get "https://h/a.mp4"
                   (Path_div out_dir "a.mp4") "" second_job_fails).2
           = <[(absolute (Path_div out_dir "a.mp4"), q) := File content]> fs1)
  ∧ (w_requests (download_one scripted_get "https://h/a.mp4"
                   (Path_div out_dir "a.mp4") "" second_job_fails).2
     = w_requests second_job_fails
     ∨ w_requests (download_one scripted_get "https://h/a.mp4"
                     (Path_div out_dir "a.mp4") "" second_job_fails).2
       = w_requests second_job_fails ++ [download_request "https://h/a.mp4" ""])
  ∧ w_slept (download_one scripted_get "https://h/a.mp4"
               (Path_div out_dir "a.mp4") "" second_job_fails).2
    = w_slept second_job_fails
  ∧ (w_requests (download_one scripted_get "https://h/a.mp4"
                   (Path_div out_dir "a.mp4") "" second_job_fails).2
     = w_requests second_job_fails →
     w_net (download_one scripted_get "https://h/a.mp4"
              (Path_div out_dir "a.mp4") "" second_job_fails).2
     = w_net second_job_fails).
Proof.
  apply (download_one_frame scripted_get "https://h/a.mp4"
           (Path_div out_dir "a.mp4") "" second_job_fails _
           (download_one scripted_get "https://h/a.mp4"
              (Path_div out_dir "a.mp4") "" second_job_fails).1).
  by destruct (download_one _ _ _ _ _).
Defined.

Lemma dispatch_request_bound_witness :
  ∃ sent,
    w_requests (dispatch scripted_get 4 "" three_jobs second_job_fails).2
    = w_requests second_job_fails ++ sent
    ∧ (length sent ≤ length three_jobs)%nat
    ∧ Forall (λ rq, ∃ url dest, (url, dest) ∈ three_jobs
                                ∧ rq = download_request url "") sent
    ∧ w_fs second_job_fails
      ⊆ w_fs (dispatch scripted_get 4 "" three_jobs second_job_fails).2
    ∧ w_slept (dispatch scripted_get 4 "" three_jobs second_job_fails).2
      = w_slept second_job_fails.
Proof.
  apply (dispatch_request_bound scripted_get 4 "" three_jobs second_job_fails _
           (dispatch scripted_get 4 "" three_jobs second_job_fails).1).
  by destruct (dispatch _ _ _ _ _).
Defined.

(** ** Page fetcher and enumeration loop: frames, the page cap, failures *)

Section EnumerateExtras.

Context {Net : Type} `{platform : Platform}
  (session_get : request → Net → res response * Net).
Context (urlparse_path : string → res string) (py_repr : json → string)
  (clock : nat → nat → Z).

(** [fetch_page] sends the listing request once or twice, sleeps at most
    once, and leaves the file system alone. *)
Lemma fetch_page_frame cookie_header page per_page (w w' : world Net) r :
  fetch_page session_get cookie_header page per_page w = (r, w') →
  w_fs w' = w_fs w
  ∧ (w_requests w' = w_requests w ++ [listing_request cookie_header page per_page]
     ∨ w_requests w'
       = w_requests w ++ [listing_request cookie_header page per_page;
                          listing_request cookie_header page per_page])
  ∧ (w_slept w' = w_slept w
     ∨ ∃ t, time_sleep t = Ok () ∧ w_slept w' = w_slept w ++ [t]).
Proof.
  unfold fetch_page, http_get. intros H.
  destruct (session_get _ (w_net w)) as [[resp0|e0] net0] eqn:Hget0.
  2:{ simplify_eq. simpl. auto. }
  unfold retry_if_rate_limited, http_get in H.
  destruct (status_code resp0 =? 429).
  - destruct (py_int _) as [t|e]; [|simplify_eq; simpl; auto].
    destruct (time_sleep t) as [[]|e] eqn:Ht; [|simplify_eq; simpl; auto].
    simpl in H.
    destruct (session_get _ net0) as [[resp1|e1] net1] eqn:Hget1.
    + destruct (raise_for_status resp1) as [[]|e];
        [destruct (json_body resp1)|]; simplify_eq; simpl;
        rewrite <- app_assoc; (split; [done|]); (split; [by right|]);
        right; by exists t.
    + simplify_eq. simpl. rewrite <- app_assoc. split; [done|].
      split; [by right|]. right. by exists t.
  - destruct (raise_for_status resp0) as [[]|e];
      [destruct (json_body resp0)|]; simplify_eq; simpl; auto.
Qed.

Lemma enqueue_page_frame out k media_page jobs (w w' : world Net) r :
  enqueue_page urlparse_path py_repr clock out k media_page jobs w = (r, w') →
  w_fs w' = w_fs w ∧ w_net w' = w_net w
  ∧ w_requests w' = w_requests w ∧ w_slept w' = w_slept w.
Proof.
  revert k jobs w. induction media_page as [|m rest IH]; intros k jobs w H;
    simpl in H; [by simplify_eq|].
  unfold enqueue in H.
  destruct (extract_downloads_of _ _ _ _ _) as [[|[url fname] l]|e];
    [apply IH in H; by simpl in H | by apply IH in H | by simplify_eq].
Qed.

(** Enumeration never downloads: however the loop ends, it has left the file
    system as it was and has sent only listing requests, for pages from the
    starting page on and, under a page cap, up to the cap. *)
Theorem enumerate_sends_only_listings (fuel : nat) (max_pages : option Z)
    (per_page : Z) (cookie_header : string) (out : Path) (page : Z) (k : nat)
    (jobs : list (string * Path)) (w w' : world Net) (o : enumeration) :
  enumerate session_get urlparse_path py_repr clock fuel max_pages per_page
    cookie_header out page k jobs w = Some (o, w') →
  w_fs w' = w_fs w
  ∧ ∃ sent,
      w_requests w' = w_requests w ++ sent
      ∧ Forall (λ rq, ∃ p, page ≤ p
                           ∧ (∀ m, max_pages = Some m → m ≠ 0 → p ≤ m)
                           ∧ rq = listing_request cookie_header p per_page) sent
      ∧ (∀ m, max_pages = Some m → m ≠ 0 →
              (length sent ≤ 2 * Z.to_nat (m + 1 - page))%nat).
Proof.
  revert page k jobs w. induction fuel as [|fuel IH]; intros page k jobs w H;
    [done|]. simpl in H.
  destruct (cap_reached max_pages page) eqn:Hcap.
  { simplify_eq. simpl. split; [done|]. exists []. rewrite app_nil_r.
    split; [done|]. split; [constructor|]. intros. simpl. lia. }
  assert (∀ m, max_pages = Some m → m ≠ 0 → page ≤ m) as Hle.
  { intros m -> Hm. simpl in Hcap.
    apply andb_false_iff in Hcap as [Hz|Hlt]; [|lia].
    apply negb_false_iff, Z.eqb_eq in Hz. done. }
  assert (∀ rqs : list request,
            rqs = [listing_request cookie_header page per_page]
            ∨ rqs = [listing_request cookie_header page per_page;
                     listing_request cookie_header page per_page] →
            Forall (λ rq, ∃ p, page ≤ p
                           ∧ (∀ m, max_pages = Some m → m ≠ 0 → p ≤ m)
                           ∧ rq = listing_request cookie_header p per_page) rqs
            ∧ (length rqs ≤ 2)%nat) as Hone.
  { intros rqs [-> | ->]; (split; [|simpl; lia]);
      repeat constructor; exists page; (split; [lia|]); by split. }
  assert (∀ m, max_pages = Some m → m ≠ 0 →
               (2 ≤ 2 * Z.to_nat (m + 1 - page))%nat) as Htwo.
  { intros m Hm Hz. specialize (Hle m Hm Hz). lia. }
  destruct (fetch_page _ _ _ _ _) as [[pg|e] w1] eqn:Hf;
    destruct (fetch_page_frame _ _ _ _ _ _ Hf) as (F1 & R1 & _).
  - destruct pg as [|m0 pg].
    + simplify_eq. split; [done|].
      destruct R1 as [R1|R1]; rewrite R1; eexists; (split; [done|]);
        (split; [apply Hone; auto|]); intros m Hm Hz;
        specialize (Htwo m Hm Hz); simpl; lia.
    + destruct (enqueue_page _ _ _ _ _ _ _ _) as [[jobs'|e] w2] eqn:He;
        destruct (enqueue_page_frame _ _ _ _ _ _ _ He) as (F2 & _ & R2 & _);
        simpl in F2, R2.
      * apply IH in H as (F3 & sent & R3 & Hall & Hlen).
        split; [congruence|].
        assert (∃ rqs, w_requests w1 = w_requests w ++ rqs
                       ∧ (rqs = [listing_request cookie_header page per_page]
                          ∨ rqs = [listing_request cookie_header page per_page;
                                   listing_request cookie_header page per_page]))
          as (rqs & Erq & Hrqs) by (destruct R1 as [R1|R1]; eauto).
        destruct (Hone rqs Hrqs) as [Hall1 Hlen1].
        exists (rqs ++ sent). rewrite R3, R2, Erq, <- app_assoc.
        split; [done|]. split.
        -- apply Forall_app. split; [done|].
           eapply Forall_impl; [exact Hall|].
           intros rq (p & Hp & Hcapp & ->). exists p. split; [lia|]. by split.
        -- intros m Hm Hz. specialize (Hlen m Hm Hz). specialize (Hle m Hm Hz).
           rewrite length_app. lia.
      * simplify_eq. split; [congruence|].
        destruct R1 as [R1|R1]; rewrite R2, R1; eexists; (split; [done|]);
          (split; [apply Hone; auto|]); intros m Hm Hz;
          specialize (Htwo m Hm Hz); simpl; lia.
  - assert (w' = w1 ∨ ∃ ev, w' = emit ev w1) as Hw'
      by (destruct (is_HTTPError e); simplify_eq; eauto).
    assert (w_fs w' = w_fs w1 ∧ w_requests w' = w_requests w1) as [F' R']
      by (destruct Hw' as [->|[ev ->]]; done).
    split; [congruence|].
    destruct R1 as [R1|R1]; rewrite R', R1; eexists; (split; [done|]);
      (split; [apply Hone; auto|]); intros m Hm Hz;
      specialize (Htwo m Hm Hz); simpl; lia.
Qed.

(** The page cap is a termination guarantee. With [--max-pages m], [m]
    other than 0, the loop ends within [m + 1 - page] iterations whatever the
    server answers. *)
Theorem enumerate_page_cap_terminates (fuel : nat) (m per_page : Z)
    (cookie_header : string) (out : Path) (page : Z) (k : nat)
    (jobs : list (string * Path)) (w : world Net) :
  m ≠ 0 →
  (Z.to_nat (m + 1 - page) < fuel)%nat →
  ∃ o w',
    enumerate session_get urlparse_path py_repr clock fuel (Some m) per_page
      cookie_header out page k jobs w = Some (o, w').
Proof.
  intros Hm. revert page k jobs w.
  induction fuel as [|fuel IH]; intros page k jobs w Hfuel; [lia|]. simpl.
  destruct (negb (m =? 0) && (m <? page)) eqn:Hcap; [eauto|].
  assert (page ≤ m) as Hle.
  { apply andb_false_iff in Hcap as [Hz|Hlt]; [|lia].
    apply negb_false_iff, Z.eqb_eq in Hz. done. }
  destruct (fetch_page _ _ _ _ _) as [[[|m0 pg]|e] w1]; [eauto| |].
  - destruct (enqueue_page _ _ _ _ _ _ _ _) as [[jobs'|e] w2]; [|eauto].
    apply IH. lia.
  - destruct (is_HTTPError e); eauto.
Qed.

(** The loop walks through pages that are served and extract without
    raising: it reaches the state after them with the fuel that is left. *)
Lemma enumerate_through max_pages per_page cookie_header out pages :
  (∀ p, cap_reached max_pages p = false) →
  ∀ page k jobs (w : world Net) net_mid,
    Forall (λ pg, pg ≠ []) pages →
    serves_pages session_get cookie_header per_page page (w_net w) pages net_mid →
    (∀ i m, concat pages !! i = Some m →
       is_Ok (extract_downloads_of urlparse_path py_repr clock (k + i) m) = true) →
    ∃ w_mid,
      (∀ fuel,
         enumerate session_get urlparse_path py_repr clock (length pages + fuel)
           max_pages per_page cookie_header out page k jobs w
         = enumerate session_get urlparse_path py_repr clock fuel max_pages
             per_page cookie_header out (page + Z.of_nat (length pages))
             (k + length (concat pages))
             (jobs ++ jobs_of urlparse_path py_repr clock out k (concat pages))
             w_mid)
      ∧ w_net w_mid = net_mid ∧ w_fs w_mid = w_fs w
      ∧ w_requests w_mid
        = w_requests w ++ listing_requests cookie_header per_page page (length pages)
      ∧ w_slept w_mid = w_slept w.
Proof.
  intros Hcap. induction pages as [|pg rest IH];
    intros page k jobs w net_mid Hne Hserve Hext.
  - simpl in Hserve. subst net_mid. exists w. simpl.
    rewrite Z.add_0_r, Nat.add_0_r, !app_nil_r. done.
  - simpl in Hserve.
    destruct Hserve as (net' & (resp & body & Hget & Hst & Hb & Hun) & Hrest).
    apply Forall_cons in Hne as [Hpg Hne].
    destruct (enqueue_page_Ok urlparse_path py_repr clock out k pg jobs
                (emit (Fetched page (length pg))
                   (mkWorld (w_fs w) net'
                      (w_requests w ++ [listing_request cookie_header page per_page])
                      (w_slept w) (w_out w))))
      as (w2 & Henq & F2 & N2 & R2 & S2).
    { intros i m' Hi. apply Hext. rewrite concat_cons. by apply lookup_app_l_Some. }
    simpl in F2, N2, R2, S2.
    destruct (IH (page + 1) (k + length pg)%nat
                (jobs ++ jobs_of urlparse_path py_repr clock out k pg) w2 net_mid)
      as (w_mid & Hrun & N3 & F3 & R3 & S3).
    + done.
    + by rewrite N2.
    + intros i m' Hi. replace (k + length pg + i)%nat
        with (k + (length pg + i))%nat by lia.
      apply Hext. rewrite concat_cons, lookup_app_r by lia.
      by replace (length pg + i - length pg)%nat with i by lia.
    + exists w_mid. split; [|split; [done|split; [congruence|split]]].
      * intros fuel. change (length (pg :: rest) + fuel)%nat
          with (S (length rest + fuel)).
        simpl enumerate.
        rewrite Hcap, (fetch_page_plain _ _ _ _ _ _ _ _ Hget Hst Hb), Hun.
        destruct pg as [|m0 pg]; [done|]. rewrite Henq, Hrun.
        rewrite jobs_of_app, length_app, <- !app_assoc.
        f_equal; lia.
      * rewrite R3, R2. simpl length.
        rewrite (listing_requests_S _ _ page (length rest)), <- app_assoc. done.
      * congruence.
Qed.

(** A failing fetch ends the run and drops what was queued. After any number
    of pages that were served and enumerated, when the next listing request is
    answered with an error status other than 429, the loop ends by [return]
    with the failure printed; when the transport raises, the exception leaves
    [main] unless it is an [HTTPError]. The jobs queued so far are not
    returned in either case. *)
Theorem enumerate_fetch_failure (max_pages : option Z) (per_page : Z)
    (cookie_header : string) (out : Path) (pages : list (list json))
    (fuel : nat) (w : world Net) (net_mid : Net) :
  max_pages = None ∨ max_pages = Some 0 →
  Forall (λ pg, pg ≠ []) pages →
  serves_pages session_get cookie_header per_page 1 (w_net w) pages net_mid →
  (∀ i m, concat pages !! i = Some m →
     is_Ok (extract_downloads_of urlparse_path py_repr clock i m) = true) →
  (length pages < fuel)%nat →
  (∀ resp net' e,
     session_get
       (listing_request cookie_header (1 + Z.of_nat (length pages)) per_page) net_mid
     = (Ok resp, net') →
     status_code resp ≠ 429 →
     raise_for_status resp = Raise e →
     ∃ w',
       enumerate session_get urlparse_path py_repr clock fuel max_pages per_page
         cookie_header out 1 0 [] w = Some (Returned, w')
       ∧ e = HTTPError (status_code resp)
       ∧ List.last (w_out w') Done = FetchFailed e
       ∧ w_requests w'
         = w_requests w
           ++ listing_requests cookie_header per_page 1 (S (length pages))
       ∧ w_fs w' = w_fs w)
  ∧ (∀ net' e,
       session_get
         (listing_request cookie_header (1 + Z.of_nat (length pages)) per_page)
         net_mid
       = (Raise e, net') →
       ∃ w',
         enumerate session_get urlparse_path py_repr clock fuel max_pages per_page
           cookie_header out 1 0 [] w
         = Some ((if is_HTTPError e then Returned else Crashed e), w')
         ∧ w_requests w'
           = w_requests w
             ++ listing_requests cookie_header per_page 1 (S (length pages))
         ∧ w_fs w' = w_fs w).
Proof.
  intros Hcap Hne Hserve Hext Hfuel.
  assert (∀ p, cap_reached max_pages p = false) as Hcap'
    by (intros p; by destruct Hcap as [-> | ->]).
  destruct (enumerate_through max_pages per_page cookie_header out pages Hcap'
              1 0%nat [] w net_mid Hne Hserve Hext)
    as (w_mid & Hrun & N & F & R & Hsl).
  assert (∃ fuel', fuel = (length pages + S fuel')%nat) as [fuel' ->]
    by (exists (fuel - length pages - 1)%nat; lia).
  assert (listing_requests cookie_header per_page 1 (S (length pages))
          = listing_requests cookie_header per_page 1 (length pages)
            ++ [listing_request cookie_header (1 + Z.of_nat (length pages)) per_page])
    as Hsnoc.
  { unfold listing_requests. rewrite seq_S, fmap_app. done. }
  split.
  - intros resp net' e Hget H429 Hst. rewrite Hrun. simpl enumerate.
    rewrite Hcap'. unfold fetch_page, http_get. rewrite N, Hget.
    unfold retry_if_rate_limited.
    destruct (status_code resp =? 429) eqn:E; [apply Z.eqb_eq in E; done|].
    rewrite Hst.
    assert (e = HTTPError (status_code resp)) as ->.
    { unfold raise_for_status in Hst. destruct (_ && _); by simplify_eq. }
    simpl. eexists. split; [done|]. split; [done|]. simpl.
    split; [by rewrite last_last|]. by rewrite R, Hsnoc, <- app_assoc.
  - intros net' e Hget. rewrite Hrun. simpl enumerate.
    rewrite Hcap'. unfold fetch_page, http_get. rewrite N, Hget.
    destruct (is_HTTPError e); eexists; (split; [done|]); simpl;
      by rewrite R, Hsnoc, <- app_assoc.
Qed.

End EnumerateExtras.

Definition one_page_then_error : world (list (res response)) :=
  world0 [page_reply [record_a; record_b]; error_reply 500] ∅.

Lemma enumerate_sends_only_listings_witness :
  w_fs (mkWorld (∅ : gmap (bool * list string) node) ([] : list (res response))
          [listing_request "" 1 100] [] [])
  = w_fs shadowed_reply
  ∧ ∃ sent,
      w_requests (mkWorld (∅ : gmap (bool * list string) node)
                    ([] : list (res response)) [listing_request "" 1 100] [] [])
      = w_requests shadowed_reply ++ sent
      ∧ Forall (λ rq, ∃ p, 1 ≤ p
                           ∧ (∀ m, Some 5 = Some m → m ≠ 0 → p ≤ m)
                           ∧ rq = listing_request "" p 100) sent
      ∧ (∀ m, Some 5 = Some m → m ≠ 0 →
              (length sent ≤ 2 * Z.to_nat (m + 1 - 1))%nat).
Proof.
  apply (enumerate_sends_only_listings scripted_get urlparse_path_cpython
           repr_opaque (λ _ _, 1700000000) 10 (Some 5) 100 "" out_dir 1 0 []
           shadowed_reply _ (Enumerated [])).
  vm_compute. reflexivity.
Defined.

Lemma enumerate_page_cap_terminates_witness :
  ∃ o w',
    enumerate scripted_get urlparse_path_cpython repr_opaque (λ _ _, 1700000000)
      3 (Some 2) 100 "" out_dir 1 0 [] two_pages_then_empty = Some (o, w').
Proof.
  apply (enumerate_page_cap_terminates scripted_get urlparse_path_cpython
           repr_opaque (λ _ _, 1700000000) 3 2 100 "" out_dir 1 0 []
           two_pages_then_empty).
  - discriminate.
  - simpl. lia.
Defined.

(** With [--max-pages 2] the third page is never requested. *)
Example enumerate_capped_at_two :
  ∃ w',
    enumerate scripted_get urlparse_path_cpython repr_opaque (λ _ _, 1700000000)
      3 (Some 2) 100 "" out_dir 1 0 [] two_pages_then_empty
    = Some (Enumerated
              [("https://h/a.mp4", Path_div out_dir "a.mp4");
               ("https://h/b.mp4", Path_div out_dir "b.mp4");
               ("https://h/c.mp4", Path_div out_dir "c.mp4")],
            w')
    ∧ length (w_requests w') = 2%nat
    ∧ w_net w' = [page_reply []]
    ∧ w_out w' = [Fetched 1 2; Fetched 2 1; ReachedMaxPages].
Proof. eexists. split; [vm_compute; reflexivity|]. repeat split. Qed.

Lemma enumerate_fetch_failure_witness :
  (∀ resp net' e,
     scripted_get
       (listing_request "" (1 + Z.of_nat (length [[record_a; record_b]])) 100)
       [error_reply 500]
     = (Ok resp, net') →
     status_code resp ≠ 429 →
     raise_for_status resp = Raise e →
     ∃ w',
       enumerate scripted_get urlparse_path_cpython repr_opaque
         (λ _ _, 1700000000) 10 None 100 "" out_dir 1 0 [] one_page_then_error
       = Some (Returned, w')
       ∧ e = HTTPError (status_code resp)
       ∧ List.last (w_out w') Done = FetchFailed e
       ∧ w_requests w'
         = w_requests one_page_then_error
           ++ listing_requests "" 100 1 (S (length [[record_a; record_b]]))
       ∧ w_fs w' = w_fs one_page_then_error)
  ∧ (∀ net' e,
       scripted_get
         (listing_request "" (1 + Z.of_nat (length [[record_a; record_b]])) 100)
         [error_reply 500]
       = (Raise e, net') →
       ∃ w',
         enumerate scripted_get urlparse_path_cpython repr_opaque
           (λ _ _, 1700000000) 10 None 100 "" out_dir 1 0 [] one_page_then_error
         = Some ((if is_HTTPError e then Returned else Crashed e), w')
         ∧ w_requests w'
           = w_requests one_page_then_error
             ++ listing_requests "" 100 1 (S (length [[record_a; record_b]]))
         ∧ w_fs w' = w_fs one_page_then_error).
Proof.
  apply (enumerate_fetch_failure scripted_get urlparse_path_cpython repr_opaque
           (λ _ _, 1700000000) None 100 "" out_dir [[record_a; record_b]] 10
           one_page_then_error [error_reply 500]).
  - by left.
  - repeat constructor; discriminate.
  - simpl. eexists. split; [eexists; eexists; repeat split; reflexivity|].
    reflexivity.
  - intros [|[|i]] m Hi; simpl in Hi; simplify_eq; reflexivity.
  - simpl. lia.
Defined.

(** One page is enumerated, the second request is answered 500: the run
    ends by [return] and the two queued jobs are gone. *)
Example enumerate_late_error :
  ∃ w',
    enumerate scripted_get urlparse_path_cpython repr_opaque (λ _ _, 1700000000)
      10 None 100 "" out_dir 1 0 [] one_page_then_error
    = Some (Returned, w')
    ∧ w_out w' = [Fetched 1 2; FetchFailed (HTTPError 500)]
    ∧ length (w_requests w') = 2%nat.
Proof. eexists. split; [vm_compute; reflexivity|]. repeat split. Qed.

(** ** URL extractor: the first candidate and the shape of file names *)

Lemma split_on_no_sep_in sep s x :
  x ∈ split_on sep s → has_char sep x = false.
Proof.
  revert x. induction s as [|c s IH]; intros x; simpl.
  - intros ->%list_elem_of_singleton. done.
  - destruct (Ascii.eqb c sep) eqn:Hc.
    + intros [->|Hin]%elem_of_cons; [done | by apply IH].
    + destruct (split_on sep s) as [|w ws] eqn:Hs.
      * intros ->%list_elem_of_singleton. simpl. by rewrite Hc.
      * intros [->|Hin]%elem_of_cons.
        -- simpl. rewrite Hc. apply IH. apply elem_of_cons. by left.
        -- apply IH. apply elem_of_cons. by right.
Qed.

Lemma last_elem_of {A} (l : list A) (d : A) : l ≠ [] → List.last l d ∈ l.
Proof.
  induction l as [|x l IH]; [done|]. intros _. destruct l as [|y l].
  - apply elem_of_cons. by left.
  - apply elem_of_cons. right. by apply IH.
Qed.

(** The name of a path is never "." and holds no "/"; when it is not empty
    it is one of the parts of the path. *)
Lemma path_name_component s :
  path_name s ≠ "" →
  has_char "/" (path_name s) = false ∧ path_name s ≠ "."
  ∧ path_parts (path_name s) = [path_name s].
Proof.
  intros Hne. unfold path_name in *.
  assert (path_parts s ≠ []) as Hparts by (intros E; by rewrite E in Hne).
  pose proof (last_elem_of (path_parts s) "" Hparts) as Hin.
  unfold path_parts at 2 in Hin.
  apply list_elem_of_filter in Hin as [[_ Hdot] Hin].
  apply split_on_no_sep_in in Hin. split; [done|]. split; [done|].
  unfold path_parts at 1. rewrite (split_on_no_sep _ _ Hin).
  by rewrite filter_cons_True.
Qed.

Section ExtractorExtras.

Context (urlparse_path : string → res string) (py_repr : json → string)
  (clock : nat → Z).

(** Which candidate comes first. The list [extract_downloads] returns is
    empty exactly when the record offers no candidate, and otherwise starts
    with the first candidate in tier order (top-level "download_url",
    "downloadUrl", "url", then the file list, then the variants): this is the
    one [main] downloads. *)
Theorem extract_downloads_head (media : list (string * json))
    (out : list (string * string)) :
  extract_downloads urlparse_path py_repr clock media = Ok out →
  (candidates media = [] ↔ out = [])
  ∧ (∀ u rest, candidates media = u :: rest →
       ∃ s f out', u = JStr s ∧ out = (s, f) :: out').
Proof.
  unfold extract_downloads. intros H.
  apply bind_Ok_inv in H as (ds & Hds & [= <-]).
  pose proof (collect_downloads_urls _ _ _ _ _ Hds) as Hurls.
  rewrite unique_of_uniq_from. destruct ds as [|[s f] ds]; simpl in *.
  - rewrite <- Hurls. split; [done|]. by intros u rest.
  - rewrite <- Hurls. destruct (decide (s ∈ (∅ : gset string))) as [Hin|_];
      [by apply not_elem_of_empty in Hin|].
    split; [split; discriminate|].
    intros u rest [= <- <-]. eauto.
Qed.

(** A file name taken from the URL is one path component. When the path of
    the URL has a name, the destination [out / name] is [out] with that one
    part appended, so its parent is [out] itself: such a download lands
    directly in the output directory. *)
Theorem url_filename_is_one_component (t : Z) (url : string)
    (media : list (string * json)) (path : string) (out : Path) :
  urlparse_path url = Ok path →
  path_name path ≠ "" →
  pick_filename urlparse_path py_repr t url media = Ok (path_name path)
  ∧ has_char "/" (path_name path) = false
  ∧ path_name path ≠ "."
  ∧ Path_div out (path_name path)
    = mkPath (absolute out) (parts out ++ [path_name path])
  ∧ Path_parent (Path_div out (path_name path)) = out.
Proof.
  intros Hp Hne.
  destruct (path_name_component path Hne) as (Hsep & Hdot & Hparts).
  split.
  { unfold pick_filename. rewrite Hp. res_simpl.
    assert (negb (String.eqb (path_name path) "") = true) as ->
      by (by apply negb_true_iff, String.eqb_neq). done. }
  split; [done|]. split; [done|].
  assert (Path_div out (path_name path)
          = mkPath (absolute out) (parts out ++ [path_name path])) as Hdiv.
  { unfold Path_div, Path_of. rewrite Hparts.
    destruct (path_name path) as [|c n] eqn:E; [done|].
    simpl in Hsep. apply orb_false_elim in Hsep as [Hc _].
    assert (match String c n with String "/" _ => true | _ => false end = false)
      as Hnot.
    { destruct c as [[] [] [] [] [] [] [] []]; try done. }
    simpl. by rewrite Hnot. }
  split; [done|]. rewrite Hdiv. unfold Path_parent. simpl.
  rewrite removelast_last. by destruct out.
Qed.

End ExtractorExtras.

Lemma extract_downloads_head_witness :
  (candidates media_three_tiers = []
   ↔ [("https://h/a.mp4", "a.mp4"); ("https://h/b.mp4", "b.mp4");
      ("https://h/c.mp4", "c.mp4"); ("https://h/d.mp4", "d.mp4")] = [])
  ∧ (∀ u rest, candidates media_three_tiers = u :: rest →
       ∃ s f out',
         u = JStr s
         ∧ [("https://h/a.mp4", "a.mp4"); ("https://h/b.mp4", "b.mp4");
            ("https://h/c.mp4", "c.mp4"); ("https://h/d.mp4", "d.mp4")]
           = (s, f) :: out').
Proof.
  apply (extract_downloads_head urlparse_path_cpython repr_opaque
           (λ _, 1700000000) media_three_tiers).
  vm_compute. reflexivity.
Defined.

Lemma url_filename_is_one_component_witness :
  pick_filename urlparse_path_cpython repr_opaque 1700000000
    "https://cdn.example.com/videos/GX010001.MP4?sig=abc" [("id", JStr "m1")]
  = Ok (path_name "/videos/GX010001.MP4")
  ∧ has_char "/" (path_name "/videos/GX010001.MP4") = false
  ∧ path_name "/videos/GX010001.MP4" ≠ "."
  ∧ Path_div out_dir (path_name "/videos/GX010001.MP4")
    = mkPath (absolute out_dir) (parts out_dir ++ [path_name "/videos/GX010001.MP4"])
  ∧ Path_parent (Path_div out_dir (path_name "/videos/GX010001.MP4")) = out_dir.
Proof.
  apply (url_filename_is_one_component urlparse_path_cpython repr_opaque
           1700000000 "https://cdn.example.com/videos/GX010001.MP4?sig=abc"
           [("id", JStr "m1")] "/videos/GX010001.MP4" out_dir).
  - vm_compute. reflexivity.
  - vm_compute. discriminate.
Defined.

(** ** Cookies: from the captured cookies to the bearer token *)

(** [sep.join(ws)]. *)
Fixpoint join_str (sep : string) (ws : list string) : string :=
  match ws with
  | [] => ""
  | [w] => w
  | w :: ws' => w +:+ sep +:+ join_str sep ws'
  end.

(** The tail of [obtain_cookies_via_selenium], with a cookie read as its
    name and value: ["; ".join(f"{c['name']}={c['value']}" for c in cookies)]. *)
Definition cookie_header_of (cookies : list (string * string)) : string :=
  join_str "; " ((λ c, c.1 +:+ "=" +:+ c.2) <$> cookies).

(** [next((c["value"] for c in cookies if c.get("name") == "gp_access_token"), None)]. *)
Fixpoint captured_token (cookies : list (string * string)) : option string :=
  match cookies with
  | [] => None
  | c :: rest =>
      if String.eqb c.1 "gp_access_token" then Some c.2 else captured_token rest
  end.

Definition no_space (s : string) : Prop :=
  Forall (λ c, is_space c = false) (String.list_ascii_of_string s).

(** A cookie as RFC 6265 writes it: no whitespace and no ";" in the name or
    the value, no "=" in the name. *)
Definition cookie_ok (c : string * string) : Prop :=
  no_space c.1 ∧ no_space c.2
  ∧ has_char ";" c.1 = false ∧ has_char ";" c.2 = false
  ∧ has_char "=" c.1 = false.

Lemma list_ascii_of_string_app a b :
  String.list_ascii_of_string (a +:+ b)
  = String.list_ascii_of_string a ++ String.list_ascii_of_string b.
Proof. induction a as [|c a IH]; simpl; [done | by rewrite IH]. Qed.

Lemma has_char_app sep a b :
  has_char sep (a +:+ b) = has_char sep a || has_char sep b.
Proof.
  induction a as [|c a IH]; simpl; [done|]. by rewrite IH, orb_assoc.
Qed.

Lemma lstrip_no_space cs : Forall (λ c, is_space c = false) cs → lstrip cs = cs.
Proof. destruct cs as [|c cs]; [done|]. intros [Hc _]%Forall_cons. simpl. by rewrite Hc. Qed.

Lemma strip_no_space cs : Forall (λ c, is_space c = false) cs → strip cs = cs.
Proof.
  intros H. unfold strip. rewrite (lstrip_no_space cs H).
  rewrite lstrip_no_space by (by apply Forall_rev). apply rev_involutive.
Qed.

Lemma string_strip_no_space s : no_space s → string_strip s = s.
Proof.
  intros H. unfold string_strip. rewrite (strip_no_space _ H).
  apply String.string_of_list_ascii_of_string.
Qed.

Lemma string_strip_leading_space s :
  no_space s → string_strip (String " " s) = s.
Proof.
  intros H. unfold string_strip, strip. simpl.
  fold (strip (String.list_ascii_of_string s)). rewrite (strip_no_space _ H).
  apply String.string_of_list_ascii_of_string.
Qed.

Lemma split_first_app sep a b :
  has_char sep a = false → split_first sep (a +:+ String sep b) = Some (a, b).
Proof.
  induction a as [|c a IH]; simpl.
  - by rewrite Ascii.eqb_refl.
  - intros [Hc Ha]%orb_false_elim. by rewrite Hc, IH.
Qed.

Lemma no_space_pair (c : string * string) :
  no_space c.1 → no_space c.2 → no_space (c.1 +:+ "=" +:+ c.2).
Proof.
  unfold no_space. intros H1 H2. rewrite !list_ascii_of_string_app.
  apply Forall_app. split; [done|]. apply Forall_app. split; [|done].
  by repeat constructor.
Qed.

Lemma split_on_join (ps : list string) p :
  Forall (λ q, has_char ";" q = false) (p :: ps) →
  split_on ";" (join_str "; " (p :: ps)) = p :: (String " " <$> ps).
Proof.
  revert p. induction ps as [|q ps IH]; intros p [Hp Hps]%Forall_cons.
  - simpl. by apply split_on_no_sep.
  - change (join_str "; " (p :: q :: ps))
      with (p +:+ String ";" (String " " (join_str "; " (q :: ps)))).
    rewrite split_on_app, (split_on_no_sep _ _ Hp).
    change (split_on ";" (String " " (join_str "; " (q :: ps))))
      with (match split_on ";" (join_str "; " (q :: ps)) with
            | [] => [String " " ""]
            | w :: ws => String " " w :: ws
            end).
    by rewrite (IH q Hps).
Qed.

Lemma token_of_parts_cookies (l : list string) (cookies : list (string * string)) :
  Forall2 (λ s c, string_strip s = c.1 +:+ String "=" c.2) l cookies →
  Forall (λ c : string * string, has_char "=" c.1 = false) cookies →
  token_of_parts l = captured_token cookies.
Proof.
  induction 1 as [|s c l cookies Hs _ IH]; intros Hall; [done|].
  apply Forall_cons in Hall as [Hc Hall]. simpl.
  rewrite Hs, (split_first_app _ _ _ Hc).
  destruct (String.eqb c.1 "gp_access_token"); [done | by apply IH].
Qed.

(** The token read back from the cookie header is the captured one. For
    cookies without whitespace or ";" in name and value and without "=" in
    the name, [_extract_token_from_cookies] applied to the header built from
    them returns the value of the first cookie named "gp_access_token", or
    nothing when there is none; so every request carries
    "Authorization: Bearer <that value>" exactly when that value is not
    empty. *)
Theorem token_round_trip (cookies : list (string * string))
    (headers : list (string * string)) :
  Forall cookie_ok cookies →
  _extract_token_from_cookies (cookie_header_of cookies) = captured_token cookies
  ∧ with_bearer (cookie_header_of cookies) headers
    = match captured_token cookies with
      | Some token =>
          if String.eqb token "" then headers
          else headers ++ [("Authorization", "Bearer " +:+ token)]
      | None => headers
      end.
Proof.
  intros Hok.
  assert (_extract_token_from_cookies (cookie_header_of cookies)
          = captured_token cookies) as Htok.
  { unfold _extract_token_from_cookies, cookie_header_of.
    destruct cookies as [|c cookies]; [done|].
    rewrite fmap_cons, split_on_join.
    - apply token_of_parts_cookies.
      + apply Forall_cons in Hok as [(H1 & H2 & _) Hok]. constructor.
        * apply string_strip_no_space. by apply no_space_pair.
        * apply Forall2_fmap_l, Forall2_fmap_l, Forall_Forall2_diag.
          eapply Forall_impl; [exact Hok|]. intros c' (H1' & H2' & _). simpl.
          apply string_strip_leading_space. by apply no_space_pair.
      + eapply Forall_impl; [exact Hok|]. by intros c' (_ & _ & _ & _ & H).
    - change (Forall (λ q, has_char ";" q = false)
                ((λ c0 : string * string, c0.1 +:+ "=" +:+ c0.2) <$> c :: cookies)).
      apply Forall_fmap.
      eapply Forall_impl; [exact Hok|]. intros c' (_ & _ & H1' & H2' & _). simpl.
      rewrite !has_char_app, H1', H2'. done. }
  split; [done|]. unfold with_bearer. by rewrite Htok.
Qed.

Lemma token_round_trip_witness :
  _extract_token_from_cookies
    (cookie_header_of [("session", "abc"); ("gp_access_token", "tok=en"); ("x", "")])
  = captured_token [("session", "abc"); ("gp_access_token", "tok=en"); ("x", "")]
  ∧ with_bearer
      (cookie_header_of [("session", "abc"); ("gp_access_token", "tok=en"); ("x", "")])
      [("Cookie", "c")]
    = match captured_token
              [("session", "abc"); ("gp_access_token", "tok=en"); ("x", "")] with
      | Some token =>
          if String.eqb token "" then [("Cookie", "c")]
          else [("Cookie", "c")] ++ [("Authorization", "Bearer " +:+ token)]
      | None => [("Cookie", "c")]
      end.
Proof.
  apply (token_round_trip
           [("session", "abc"); ("gp_access_token", "tok=en"); ("x", "")]
           [("Cookie", "c")]).
  repeat constructor.
Defined.

Example cookie_header_example :
  cookie_header_of [("session", "abc"); ("gp_access_token", "tok=en"); ("x", "")]
  = "session=abc; gp_access_token=tok=en; x="
  ∧ _extract_token_from_cookies "session=abc; gp_access_token=tok=en; x="
    = Some "tok=en"
  ∧ _extract_token_from_cookies "" = None
  ∧ _extract_token_from_cookies "gp_access_token" = None.
Proof. repeat split. Qed.

(** ** Page fetcher: the shapes of a body *)

Lemma first_list_None d keys :
  (∀ k zs, k ∈ keys → dict_get d k ≠ Some (JList zs)) →
  first_list d keys = None.
Proof.
  induction keys as [|key keys IH]; intros H; simpl; [done|].
  destruct (dict_get d key) as [[]|] eqn:E;
    try (apply IH; intros k zs Hk; apply H; apply elem_of_cons; by right).
  exfalso. eapply (H key); [|exact E]. apply elem_of_cons. by left.
Qed.

Lemma existsb_is_str_dicts k (xs : list json) :
  Forall (λ x, ∃ e, x = JDict e) xs → existsb (is_str k) xs = false.
Proof.
  induction 1 as [|x xs [e ->] _ IH]; simpl; [done | exact IH].
Qed.

(** Unwrapping a body. On a JSON object [unwrap_records] never raises, and
    what it returns is empty or a list stored in the body, at top level or
    one level down under "response", under one of the four keys; the wrapped
    list is used when no top-level key holds a list. A body that is null,
    false, 0, "" or empty yields no records, and so does a bare array of
    record objects: its records are not seen. *)
Theorem unwrap_records_shapes :
  (∀ d, ∃ ys,
     unwrap_records (JDict d) = Ok ys
     ∧ (ys = []
        ∨ ∃ key, key ∈ list_keys
                 ∧ (dict_get d key = Some (JList ys)
                    ∨ ∃ inner, dict_get d "response" = Some (JDict inner)
                               ∧ dict_get inner key = Some (JList ys))))
  ∧ (∀ d inner key xs,
       (∀ k zs, k ∈ list_keys → dict_get d k ≠ Some (JList zs)) →
       dict_get d "response" = Some (JDict inner) →
       key ∈ list_keys →
       dict_get inner key = Some (JList xs) →
       ∃ ys pre key' post,
         unwrap_records (JDict d) = Ok ys
         ∧ list_keys = pre ++ key' :: post
         ∧ dict_get inner key' = Some (JList ys)
         ∧ ∀ k zs, k ∈ pre → dict_get inner k ≠ Some (JList zs))
  ∧ (∀ body, truthy body = false →
       unwrap_records (py_or body (JDict [])) = Ok [])
  ∧ (∀ xs, Forall (λ x, ∃ e, x = JDict e) xs → unwrap_records (JList xs) = Ok []).
Proof.
  split; [|split; [|split]].
  - intros d. unfold unwrap_records.
    destruct (first_list d list_keys) as [ys|] eqn:Htop.
    + exists ys. split; [done|]. right.
      apply first_list_Some in Htop as (pre & key & post & Hk & Hd & _).
      exists key. split; [|by left]. rewrite Hk. apply elem_of_app. right.
      apply elem_of_cons. by left.
    + destruct (dict_get d "response") as [[| | | | |inner]|] eqn:Hr;
        try (exists []; split; [done | by left]).
      destruct (first_list inner list_keys) as [ys|] eqn:Hin.
      * exists ys. split; [done|]. right.
        apply first_list_Some in Hin as (pre & key & post & Hk & Hd & _).
        exists key. split; [|right; by exists inner].
        rewrite Hk. apply elem_of_app. right. apply elem_of_cons. by left.
      * exists []. split; [done | by left].
  - intros d inner key xs Htop Hr Hkey Hin. unfold unwrap_records.
    rewrite (first_list_None d list_keys Htop), Hr.
    destruct (first_list_is_Some inner list_keys key xs Hkey Hin) as [ys Hys].
    rewrite Hys.
    apply first_list_Some in Hys as (pre & key' & post & Hk & Hd & Hpre).
    exists ys, pre, key', post. done.
  - intros body Hb. unfold py_or. by rewrite Hb.
  - intros xs Hxs. unfold unwrap_records. simpl.
    by rewrite !(existsb_is_str_dicts _ xs Hxs).
Qed.

(** ** [main] *)

(** The arguments [main] reads outside the browser flows. *)
Record args : Type := mkArgs {
  a_out : string;
  a_ui_download : bool;
  a_per_page : Z;
  a_max_pages : option Z;
  a_concurrency : Z;
  a_dry_run : bool
}.

(** The messages [main] prints itself, outside its two loops. *)
Inductive main_message : Type :=
| UIDownloadsTriggered (browser_closed : bool)
| NoDownloadableMedia
| Queued (jobs : nat)
| DryRunLine (dest : Path) (url : string).

(** How [main] ends: by [return], or by an exception that leaves it. *)
Inductive main_result : Type :=
| MainReturned
| MainRaised (e : exn).

(** [main]: make the output directory; with [--ui-download] run the browser
    flow and return; otherwise enumerate, then report, list (dry run) or
    dispatch. [ui_download] stands for the lines of the browser flow (build
    the driver, log in, click through the tiles, close the browser or wait):
    what they do to the world is not looked into. On the other path
    [cookie_header] is what [obtain_cookies_via_selenium] returns; a login
    that fails exits the program there, before anything below is run. [None]
    is "still enumerating". *)
Definition main {Net : Type} `{platform : Platform}
  (session_get : request → Net → res response * Net)
  (urlparse_path : string → res string) (py_repr : json → string)
  (clock : nat → nat → Z)
  (ui_download : args → world Net → main_result * list main_message * world Net)
  (fuel : nat) (a : args) (cookie_header : string)
  (w : world Net) : option (main_result * list main_message * world Net) :=
  match Path_mkdir (w_fs w) (Path_of (a_out a)) with
  | Raise e => Some (MainRaised e, [], w)
  | Ok fs1 =>
      if a_ui_download a then Some (ui_download a (set_fs fs1 w))
      else
        match enumerate session_get urlparse_path py_repr clock fuel
                (a_max_pages a) (a_per_page a) cookie_header (Path_of (a_out a))
                1 0 [] (set_fs fs1 w) with
        | None => None
        | Some (Crashed e, w1) => Some (MainRaised e, [], w1)
        | Some (Returned, w1) => Some (MainReturned, [], w1)
        | Some (Enumerated [], w1) => Some (MainReturned, [NoDownloadableMedia], w1)
        | Some (Enumerated jobs, w1) =>
            if a_dry_run a
            then Some (MainReturned,
                       Queued (length jobs)
                         :: ((λ j : string * Path, DryRunLine j.2 j.1) <$> jobs),
                       w1)
            else match dispatch session_get (a_concurrency a) cookie_header jobs w1 with
                 | (Ok _, w2) => Some (MainReturned, [Queued (length jobs)], w2)
                 | (Raise e, w2) => Some (MainRaised e, [Queued (length jobs)], w2)
                 end
        end
  end.

Section MainExtras.

Context {Net : Type} `{platform : Platform}
  (session_get : request → Net → res response * Net).
Context (urlparse_path : string → res string) (py_repr : json → string)
  (clock : nat → nat → Z).
Context (ui_download :
           args → world Net → main_result * list main_message * world Net).

(** A dry run of the API path downloads nothing. With [--dry-run] and
    without [--ui-download], however [main] ends, the only requests it has
    sent are listing requests to the API, and the file system has gained at
    most directories (the output directory and its parents): no file was
    created or changed. With [--ui-download] the flag is never read. *)
Theorem main_dry_run_downloads_nothing (fuel : nat) (a : args)
    (cookie_header : string) (w w' : world Net) (r : main_result)
    (msgs : list main_message) :
  a_ui_download a = false →
  a_dry_run a = true →
  main session_get urlparse_path py_repr clock ui_download fuel a cookie_header w
  = Some (r, msgs, w') →
  only_dirs_added (w_fs w) (w_fs w')
  ∧ ∃ sent,
      w_requests w' = w_requests w ++ sent
      ∧ Forall (λ rq, rq_url rq = API_URL ∧ rq_stream rq = false) sent.
Proof.
  intros Hui Hdry H. unfold main in H. rewrite Hui in H.
  destruct (Path_mkdir _ _) as [fs1|e] eqn:Hmk.
  2:{ simplify_eq. split; [apply only_dirs_added_refl|]. exists [].
      by rewrite app_nil_r. }
  destruct (Path_mkdir_Ok _ _ _ Hmk) as [Hgrow _].
  destruct (enumerate _ _ _ _ _ _ _ _ _ _ _ _ _) as [[o w1]|] eqn:He; [|done].
  destruct (enumerate_sends_only_listings _ _ _ _ _ _ _ _ _ _ _ _ _ _ _ He)
    as (F & sent & R & Hall & _).
  simpl in F, R.
  assert (w' = w1) as ->.
  { destruct o as [[|j jobs]| |e]; try by simplify_eq.
    rewrite Hdry in H. by simplify_eq. }
  split; [by rewrite F|]. exists sent. split; [done|].
  eapply Forall_impl; [exact Hall|]. by intros rq (p & _ & _ & ->).
Qed.

End MainExtras.

Definition dry_run_args : args := mkArgs "gopro_media" false 100 None 4 true.

(** A browser flow for the examples, which are not about it: it returns at
    once. *)
Definition no_browser {Net : Type} (a : args) (w : world Net)
  : main_result * list main_message * world Net :=
  (MainReturned, [UIDownloadsTriggered true], w).

Example main_dry_run_two_pages :
  ∃ w',
    main scripted_get urlparse_path_cpython repr_opaque (λ _ _, 1700000000)
      no_browser 10 dry_run_args "" two_pages_then_empty
    = Some (MainReturned,
            [Queued 3;
             DryRunLine (Path_div out_dir "a.mp4") "https://h/a.mp4";
             DryRunLine (Path_div out_dir "b.mp4") "https://h/b.mp4";
             DryRunLine (Path_div out_dir "c.mp4") "https://h/c.mp4"],
            w')
    ∧ w_fs w' = {[ (false, ["gopro_media"]) := Dir ]}
    ∧ length (w_requests w') = 3%nat.
Proof. eexists. split; [vm_compute; reflexivity|]. split; reflexivity. Qed.

Lemma main_dry_run_downloads_nothing_witness :
  only_dirs_added (w_fs shadowed_reply)
    (w_fs (mkWorld ({[ (false, ["gopro_media"]) := Dir ]}
                      : gmap (bool * list string) node)
             ([] : list (res response)) [listing_request "" 1 100] [] []))
  ∧ ∃ sent,
      w_requests (mkWorld ({[ (false, ["gopro_media"]) := Dir ]}
                             : gmap (bool * list string) node)
                    ([] : list (res response)) [listing_request "" 1 100] [] [])
      = w_requests shadowed_reply ++ sent
      ∧ Forall (λ rq, rq_url rq = API_URL ∧ rq_stream rq = false) sent.
Proof.
  apply (main_dry_run_downloads_nothing scripted_get urlparse_path_cpython
           repr_opaque (λ _ _, 1700000000) no_browser 10 dry_run_args ""
           shadowed_reply _ MainReturned [NoDownloadableMedia]).
  - reflexivity.
  - reflexivity.
  - vm_compute. reflexivity.
Defined.

(** ** The tile loop of [download_media_via_ui]

    The browser is a parameter: one step stands for what the loop does on a
    tile (scroll into view, context click with its fallbacks, wait for the
    menu item and click it) and answers whether the item was clicked, or
    raises. [post_click_sleep] is the outcome of
    [time.sleep(args.post_click_wait)], which raises on a negative wait. The
    wait between batches is not modelled beyond the message that announces
    it. *)

Inductive ui_message : Type :=
| ClickedOriginal (idx total : Z)
| OriginalNotFound (idx total : Z)
| CompletedBatch (batch_size : Z).

Section TileLoop.

Context {Tile Browser : Type}.
Variable click_original : Tile → Browser → res bool * Browser.
Variable post_click_sleep : res unit.

(** [for idx, elem in enumerate(tiles, start=start_idx)], from [idx] on. *)
Fixpoint tile_loop (total start_idx batch_size idx : Z) (tiles : list Tile)
  (b : Browser) : res unit * list ui_message * Browser :=
  match tiles with
  | [] => (Ok (), [], b)
  | elem :: rest =>
      match click_original elem b with
      | (Raise e, b1) => (Raise e, [], b1)
      | (Ok clicked, b1) =>
          match (if clicked then post_click_sleep else Ok ()) with
          | Raise e => (Raise e, [ClickedOriginal idx total], b1)
          | Ok _ =>
              let '(r, msgs, b2) :=
                tile_loop total start_idx batch_size (idx + 1) rest b1 in
              (r,
               (if clicked then ClickedOriginal idx total
                else OriginalNotFound idx total)
                 :: (if ((idx - start_idx + 1) mod batch_size =? 0)
                        && (idx <? total)
                     then [CompletedBatch batch_size] else [])
                 ++ msgs,
               b2)
          end
      end
  end.

(** From [tiles_all] on: nothing when there is no tile; otherwise
    [start_idx = max(1, args.ui_start_index)],
    [tiles = tiles_all[start_idx - 1:]],
    [batch_size = max(1, args.ui_batch_size)]. *)
Definition ui_tiles (ui_start_index ui_batch_size : Z) (tiles_all : list Tile)
  (b : Browser) : res unit * list ui_message * Browser :=
  match tiles_all with
  | [] => (Ok (), [], b)
  | _ =>
      tile_loop (Z.of_nat (length tiles_all)) (Z.max 1 ui_start_index)
        (Z.max 1 ui_batch_size) (Z.max 1 ui_start_index)
        (drop (Z.to_nat (Z.max 1 ui_start_index - 1)) tiles_all) b
  end.

(** The tile numbers printed, in order. *)
Definition tile_labels (msgs : list ui_message) : list Z :=
  omap (λ m, match m with
             | ClickedOriginal idx _ | OriginalNotFound idx _ => Some idx
             | CompletedBatch _ => None
             end) msgs.

Fixpoint batch_waits (msgs : list ui_message) : nat :=
  match msgs with
  | [] => 0
  | CompletedBatch _ :: rest => S (batch_waits rest)
  | _ :: rest => batch_waits rest
  end.

Lemma tile_labels_app l1 l2 : tile_labels (l1 ++ l2) = tile_labels l1 ++ tile_labels l2.
Proof. apply omap_app. Qed.

Lemma batch_waits_app l1 l2 : batch_waits (l1 ++ l2) = (batch_waits l1 + batch_waits l2)%nat.
Proof.
  induction l1 as [|[] l1 IH]; simpl; [done| | |]; by rewrite ?IH.
Qed.

Lemma tile_loop_labels total start_idx batch_size idx tiles b r msgs b' :
  tile_loop total start_idx batch_size idx tiles b = (r, msgs, b') →
  ∃ n, (n ≤ length tiles)%nat
       ∧ tile_labels msgs = (λ i : nat, idx + Z.of_nat i) <$> seq 0 n
       ∧ (r = Ok () → n = length tiles).
Proof.
  revert idx b r msgs b'. induction tiles as [|t tiles IH];
    intros idx b r msgs b' H; simpl in H.
  - simplify_eq. exists 0%nat. done.
  - destruct (click_original t b) as [[clicked|e] b1].
    2:{ simplify_eq. exists 0%nat. split; [simpl; lia|]. done. }
    destruct (if clicked then post_click_sleep else Ok ()) as [[]|e] eqn:Hs.
    2:{ simplify_eq. exists 1%nat. split; [simpl; lia|].
        split; [simpl; f_equal; lia|done]. }
    destruct (tile_loop _ _ _ _ tiles b1) as [[r1 msgs1] b2] eqn:Hrec.
    simplify_eq. apply IH in Hrec as (n & Hn & Hl & Hr).
    exists (S n). split; [simpl; lia|]. split; [|intros E; by rewrite (Hr E)].
    rewrite <- cons_seq, fmap_cons, <- fmap_S_seq, <- list_fmap_compose.
    change (?x :: ?l ++ msgs1) with ([x] ++ l ++ msgs1).
    rewrite !tile_labels_app, Hl.
    assert (tile_labels
              (if ((idx - start_idx + 1) mod batch_size =? 0) && (idx <? total)
               then [CompletedBatch batch_size] else []) = []) as ->
      by (by destruct (_ && _)).
    assert (tile_labels [if clicked then ClickedOriginal idx total
                         else OriginalNotFound idx total] = [idx + Z.of_nat 0])
      as -> by (destruct clicked; simpl; f_equal; lia).
    simpl. f_equal. apply list_fmap_ext. intros i x _. simpl. lia.
Qed.

(** Which tiles are reported. No message names a tile before the start index
    (1-based; a start index below 1 counts as 1); the loop reports the others
    in order, one message each, numbered with their position in the full tile
    list, and all of them unless the browser or the pause after a click
    raises. A start index beyond the last tile reports nothing. *)
Theorem ui_tiles_labels (ui_start_index ui_batch_size : Z)
    (tiles_all : list Tile) (b b' : Browser) (r : res unit)
    (msgs : list ui_message) :
  ui_tiles ui_start_index ui_batch_size tiles_all b = (r, msgs, b') →
  ∃ n,
    (n ≤ length tiles_all - Z.to_nat (Z.max 1 ui_start_index - 1))%nat
    ∧ tile_labels msgs
      = (λ i : nat, Z.max 1 ui_start_index + Z.of_nat i) <$> seq 0 n
    ∧ (r = Ok () →
       n = (length tiles_all - Z.to_nat (Z.max 1 ui_start_index - 1))%nat).
Proof.
  unfold ui_tiles. destruct tiles_all as [|t0 tiles_all'] eqn:E.
  - intros H. simplify_eq. exists 0%nat. done.
  - rewrite <- E. intros H. apply tile_loop_labels in H as (n & Hn & Hl & Hr).
    rewrite length_drop in Hn, Hr. by exists n.
Qed.

Lemma div_step (b j : Z) :
  0 < b → j / b = (j - 1) / b + (if j mod b =? 0 then 1 else 0).
Proof.
  intros Hb. destruct (j mod b =? 0) eqn:E.
  - apply Z.eqb_eq in E. Z.to_euclidean_division_equations. nia.
  - apply Z.eqb_neq in E. Z.to_euclidean_division_equations. nia.
Qed.

Lemma tile_loop_cons total start_idx batch_size idx t rest b :
  tile_loop total start_idx batch_size idx (t :: rest) b
  = match click_original t b with
    | (Raise e, b1) => (Raise e, [], b1)
    | (Ok clicked, b1) =>
        match (if clicked then post_click_sleep else Ok ()) with
        | Raise e => (Raise e, [ClickedOriginal idx total], b1)
        | Ok _ =>
            let '(r, msgs, b2) :=
              tile_loop total start_idx batch_size (idx + 1) rest b1 in
            (r,
             (if clicked then ClickedOriginal idx total
              else OriginalNotFound idx total)
               :: (if ((idx - start_idx + 1) mod batch_size =? 0)
                      && (idx <? total)
                   then [CompletedBatch batch_size] else [])
               ++ msgs,
             b2)
        end
    end.
Proof. reflexivity. Qed.

Lemma tile_loop_waits total start_idx batch_size idx t tiles b msgs b' :
  0 < batch_size →
  total = idx + Z.of_nat (length tiles) →
  tile_loop total start_idx batch_size idx (t :: tiles) b = (Ok (), msgs, b') →
  Z.of_nat (batch_waits msgs)
  = (idx - start_idx + Z.of_nat (length tiles)) / batch_size
    - (idx - start_idx) / batch_size.
Proof.
  intros Hb. revert idx t b msgs b'. induction tiles as [|t2 tiles IH];
    intros idx t b msgs b' Htot H; rewrite tile_loop_cons in H;
    (destruct (click_original t b) as [[clicked|e] b1]; [|by inversion H]);
    (destruct (if clicked then post_click_sleep else Ok ()) as [[]|e];
     [|by inversion H]).
  - simpl in H. injection H as <- <-. simpl in Htot.
    destruct (idx <? total) eqn:Hlt; [apply Z.ltb_lt in Hlt; lia|].
    rewrite andb_false_r.
    destruct clicked; simpl; rewrite ?Z.add_0_r, Z.sub_diag; done.
  - destruct (tile_loop total start_idx batch_size (idx + 1) (t2 :: tiles) b1)
      as [[r1 msgs1] b2] eqn:Hrec.
    injection H as -> <- <-.
    apply IH in Hrec; [|simpl length in *; lia].
    destruct (idx <? total) eqn:Hlt;
      [|apply Z.ltb_ge in Hlt; simpl length in Htot; lia].
    rewrite andb_true_r.
    change (?x :: ?l ++ msgs1) with ([x] ++ l ++ msgs1).
    rewrite !batch_waits_app, !Nat2Z.inj_add, Hrec.
    assert (batch_waits [if clicked then ClickedOriginal idx total
                         else OriginalNotFound idx total] = 0%nat)
      as -> by (by destruct clicked).
    pose proof (div_step batch_size (idx - start_idx + 1) Hb) as Hd.
    replace (idx - start_idx + 1 - 1) with (idx - start_idx) in Hd by lia.
    replace (idx + 1 - start_idx) with (idx - start_idx + 1) by lia.
    replace (idx - start_idx + 1 + Z.of_nat (length tiles))
      with (idx - start_idx + Z.of_nat (length (t2 :: tiles)))
      by (simpl length; lia).
    destruct ((idx - start_idx + 1) mod batch_size =? 0); simpl batch_waits; lia.
Qed.

(** How often the loop waits between batches. When the loop ends without
    raising and [m] tiles are processed, with batches of [max(1, batch size)],
    the batch wait is announced [(m - 1) div batch] times: after every full
    batch, except that nothing waits after the last tile. *)
Theorem ui_tiles_batch_waits (ui_start_index ui_batch_size : Z)
    (tiles_all : list Tile) (b b' : Browser) (msgs : list ui_message) :
  ui_tiles ui_start_index ui_batch_size tiles_all b = (Ok (), msgs, b') →
  batch_waits msgs
  = Z.to_nat
      ((Z.of_nat (length tiles_all - Z.to_nat (Z.max 1 ui_start_index - 1)) - 1)
       / Z.max 1 ui_batch_size).
Proof.
  unfold ui_tiles. destruct tiles_all as [|t0 tiles_all'] eqn:E.
  - intros H. simplify_eq. simpl.
    assert ((0 - 1) / Z.max 1 ui_batch_size < 0)
      by (apply Z.div_lt_upper_bound; lia).
    replace (Z.of_nat (0 - Z.to_nat (Z.max 1 ui_start_index - 1)) - 1)
      with (0 - 1) by lia.
    lia.
  - rewrite <- E. intros H.
    destruct (drop (Z.to_nat (Z.max 1 ui_start_index - 1)) tiles_all)
      as [|t tiles] eqn:Hd.
    + simpl in H. simplify_eq.
      apply (f_equal length) in Hd. rewrite length_drop in Hd. rewrite Hd. simpl.
      assert ((0 - 1) / Z.max 1 ui_batch_size < 0)
        by (apply Z.div_lt_upper_bound; lia).
      lia.
    + pose proof (f_equal length Hd) as Hlen. rewrite length_drop in Hlen.
      simpl in Hlen.
      apply tile_loop_waits in H; [|lia|lia].
      rewrite Z.sub_diag, Z.add_0_l, Z.div_0_l, Z.sub_0_r in H by lia.
      rewrite Hlen. replace (Z.of_nat (S (length tiles)) - 1)
        with (Z.of_nat (length tiles)) by lia.
      rewrite <- H. lia.
Qed.

End TileLoop.

Lemma ui_tiles_labels_witness :
  ∃ n,
    (n ≤ length [1; 2; 3; 4; 5; 6; 7] - Z.to_nat (Z.max 1 3 - 1))%nat
    ∧ tile_labels
        [ClickedOriginal 3 7; ClickedOriginal 4 7; CompletedBatch 2;
         ClickedOriginal 5 7; ClickedOriginal 6 7; CompletedBatch 2;
         ClickedOriginal 7 7]
      = (λ i : nat, Z.max 1 3 + Z.of_nat i) <$> seq 0 n
    ∧ (Ok () = Ok () →
       n = (length [1; 2; 3; 4; 5; 6; 7] - Z.to_nat (Z.max 1 3 - 1))%nat).
Proof.
  apply (ui_tiles_labels (λ (_ : Z) (b : unit), (Ok true, b)) (Ok ()) 3 2
           [1; 2; 3; 4; 5; 6; 7] () () (Ok ())).
  reflexivity.
Defined.

Lemma ui_tiles_batch_waits_witness :
  batch_waits
    [ClickedOriginal 3 7; ClickedOriginal 4 7; CompletedBatch 2;
     ClickedOriginal 5 7; ClickedOriginal 6 7; CompletedBatch 2;
     ClickedOriginal 7 7]
  = Z.to_nat
      ((Z.of_nat (length [1; 2; 3; 4; 5; 6; 7] - Z.to_nat (Z.max 1 3 - 1)) - 1)
       / Z.max 1 2).
Proof.
  apply (ui_tiles_batch_waits (λ (_ : Z) (b : unit), (Ok true, b)) (Ok ()) 3 2
           [1; 2; 3; 4; 5; 6; 7] () ()).
  reflexivity.
Defined.
